(** * Reggie Next: sprite image library (spritelib.py)

    A shallow embedding of the geometry, cache and auxiliary-item code of
    [spritelib.py], and the properties its specification states about it.

    Modelling conventions.
    - Python numbers (ints and floats) are idealised as rationals [Q]; the
      literals [1.5] and [0.75] are the rationals 3/2 and 3/4.  Python's
      [==] on numbers is [Qeq] (written [==], and [≡] on structures),
      [<] is [Qlt]; the decisions the code takes on them are the boolean
      tests [Qeq_bool] and [Qltb].
    - Python exceptions are values of [exn]; a call that can raise returns
      a [result].
    - Mutable objects shared between several owners (zones, auxiliary
      items) live in a heap indexed by references.
    - Module-level globals ([ImageCache], [Tiles], [SpritesFolders]) are
      the fields of a record threaded through the functions using them.
    - Calls on a [QPainter] are recorded as the list of commands issued. *)

From Stdlib Require Import QArith Qminmax Lqa ZArith.
From stdpp Require Import gmap strings list.

Local Open Scope Q_scope.

(** ** Python values and exceptions *)

Module Py.

Inductive exn : Type :=
| KeyError
| ValueError
| AttributeError
| IndexError
| RuntimeError
| TypeError
| ZeroDivisionError.

Inductive result (A : Type) : Type :=
| Ok (a : A)
| Raise (e : exn).
Arguments Ok {A} a.
Arguments Raise {A} e.

Definition bind {A B : Type} (m : result A) (k : A -> result B) : result B :=
  match m with
  | Ok a => k a
  | Raise e => Raise e
  end.

(** [a < b] on numbers. *)
Definition Qltb (a b : Q) : bool := negb (Qle_bool b a).

(** [a / b]: true division, raising on a zero divisor. *)
Definition truediv (a b : Q) : result Q :=
  if Qeq_bool b 0 then Raise ZeroDivisionError else Ok (a / b).

(** [a ** 2]. *)
Definition sqr (a : Q) : Q := a ^ 2.

End Py.

Notation "'let*' x ':=' m 'in' k" := (Py.bind m (fun x => k))
  (at level 10, x name, m at level 100, k at level 200, only parsing).

#[global] Instance Q_equiv : Equiv Q := Qeq.

(** ** The parts of Qt the library calls *)

Module Qt.

(** [QtCore.QRectF(x, y, w, h)]. *)
Record QRectF : Type := mkQRectF {
  x : Q;
  y : Q;
  width : Q;
  height : Q
}.

#[global] Instance QRectF_equiv : Equiv QRectF := fun r1 r2 =>
  x r1 == x r2 /\ y r1 == y r2 /\
  width r1 == width r2 /\ height r1 == height r2.

(** [QRectF.getCoords()]: left, top, right, bottom. *)
Definition getCoords (r : QRectF) : Q * Q * Q * Q :=
  (x r, y r, x r + width r, y r + height r).

(** [QRectF.contains(x, y)]: edges included, a rectangle of no width or
    no height contains nothing, negative extents are normalised. *)
Definition contains (r : QRectF) (px py : Q) : bool :=
  let l := if Py.Qltb (width r) 0 then x r + width r else x r in
  let rr := if Py.Qltb (width r) 0 then x r else x r + width r in
  let t := if Py.Qltb (height r) 0 then y r + height r else y r in
  let b := if Py.Qltb (height r) 0 then y r else y r + height r in
  if Qeq_bool l rr then false
  else if Py.Qltb px l || Py.Qltb rr px then false
  else if Qeq_bool t b then false
  else if Py.Qltb py t || Py.Qltb b py then false
  else true.

(** Images: a [QImage] or [QPixmap] decoded from a file, or a
    [copy(x, y, w, h)] of another one. *)
Inductive Image : Type :=
| QImage (path : string)
| QPixmap (path : string)
| copy (src : Image) (cx cy cw ch : Q).

(** [Qt.AlignmentFlag]. *)
Definition AlignLeft : Z := 1.
Definition AlignRight : Z := 2.
Definition AlignHCenter : Z := 4.
Definition AlignTop : Z := 32.
Definition AlignBottom : Z := 64.
Definition AlignVCenter : Z := 128.

(** The calls the library makes on a [QPainter], in order. *)
Inductive PainterCmd : Type :=
| setClipRect (r : QRectF)
| setRenderHint_Antialiasing
| setPen_OutlinePen
| setBrush_OutlineBrush
| setOpacity (a : Q)
| drawPixmap (px py : Q) (img : Image)
| drawLine (x1 y1 x2 y2 : Q)
| drawEllipse (ex ey ew eh : Q).

End Qt.

(** A dimensions tuple [(xOffset, yOffset, width, height)]. *)
Definition Dimensions : Type := Q * Q * Q * Q.

(** ** Spritebox *)

Module Spritebox.

Record t : Type := mk {
  shown : bool;
  xOffset : Q;
  yOffset : Q;
  width : Q;
  height : Q;
  scale : Q
}.

(** [Spritebox.__init__(self, scale=1.5)]. *)
Definition init (scale : Q) : t :=
  {| shown := true; xOffset := 0; yOffset := 0;
     width := 16; height := 16; scale := scale |}.

Definition getOffset (self : t) : Q * Q := (xOffset self, yOffset self).

Definition setOffset (self : t) (new : Q * Q) : t :=
  {| shown := shown self; xOffset := fst new; yOffset := snd new;
     width := width self; height := height self; scale := scale self |}.

Definition delOffset (self : t) : t := setOffset self (0, 0).

Definition getSize (self : t) : Q * Q := (width self, height self).

Definition setSize (self : t) (new : Q * Q) : t :=
  {| shown := shown self; xOffset := xOffset self; yOffset := yOffset self;
     width := fst new; height := snd new; scale := scale self |}.

Definition delSize (self : t) : t := setSize self (16, 16).

Definition getDimensions (self : t) : Dimensions :=
  (xOffset self, yOffset self, width self, height self).

Definition setDimensions (self : t) (new : Dimensions) : t :=
  let '(new0, new1, new2, new3) := new in
  {| shown := shown self; xOffset := new0; yOffset := new1;
     width := new2; height := new3; scale := scale self |}.

Definition delDimensions (self : t) : t := setDimensions self (0, 0, 16, 16).

(** The [RoundedRect] property. *)
Definition getRR (self : t) : Qt.QRectF :=
  Qt.mkQRectF
    ((xOffset self * scale self) + 1)
    ((yOffset self * scale self) + 1)
    ((width self * scale self) - 2)
    ((height self * scale self) - 2).

Definition setRR (self : t) (new : Qt.QRectF) : Py.result t :=
  let* d0 := Py.truediv (Qt.x new) (scale self) in
  let* d1 := Py.truediv (Qt.y new) (scale self) in
  let* d2 := Py.truediv (Qt.width new) (scale self) in
  let* d3 := Py.truediv (Qt.height new) (scale self) in
  Py.Ok (setDimensions self (d0 - 1, d1 - 1, d2 + 2, d3 + 2)).

Definition delRR (self : t) : t := setDimensions self (0, 0, 16, 16).

(** The [BoundingRect] property. *)
Definition getBR (self : t) : Qt.QRectF :=
  Qt.mkQRectF
    (xOffset self * scale self)
    (yOffset self * scale self)
    (width self * scale self)
    (height self * scale self).

Definition setBR (self : t) (new : Qt.QRectF) : t :=
  setDimensions self
    (Qt.x new * scale self,
     Qt.y new * scale self,
     Qt.width new * scale self,
     Qt.height new * scale self).

Definition delBR (self : t) : t := setDimensions self (0, 0, 16, 16).

End Spritebox.

(** ** SpriteImage *)

Module SpriteImage.

Record t : Type := mk {
  parent : positive;
  alpha : Q;
  image : option Qt.Image;
  spritebox : Spritebox.t;
  xOffset : Q;
  yOffset : Q;
  width : Q;
  height : Q;
  scale : Q;
  aux : list positive
}.

Definition getOffset (self : t) : Q * Q := (xOffset self, yOffset self).

Definition setOffset (self : t) (new : Q * Q) : t :=
  {| parent := parent self; alpha := alpha self; image := image self;
     spritebox := spritebox self;
     xOffset := fst new; yOffset := snd new;
     width := width self; height := height self;
     scale := scale self; aux := aux self |}.

Definition delOffset (self : t) : t := setOffset self (0, 0).

Definition getSize (self : t) : Q * Q := (width self, height self).

Definition setSize (self : t) (new : Q * Q) : t :=
  {| parent := parent self; alpha := alpha self; image := image self;
     spritebox := spritebox self;
     xOffset := xOffset self; yOffset := yOffset self;
     width := fst new; height := snd new;
     scale := scale self; aux := aux self |}.

Definition delSize (self : t) : t := setSize self (16, 16).

Definition getDimensions (self : t) : Dimensions :=
  (xOffset self, yOffset self, width self, height self).

Definition setDimensions (self : t) (new : Dimensions) : t :=
  let '(new0, new1, new2, new3) := new in
  {| parent := parent self; alpha := alpha self; image := image self;
     spritebox := spritebox self;
     xOffset := new0; yOffset := new1; width := new2; height := new3;
     scale := scale self; aux := aux self |}.

Definition delDimensions (self : t) : t := setDimensions self (0, 0, 16, 16).

(** [SpriteImage.__init__(self, parent, scale=1.5)]: the assignment to
    [self.dimensions] goes through the property setter. *)
Definition init (parent : positive) (scale : Q) : t :=
  setDimensions
    {| parent := parent; alpha := 1; image := None;
       spritebox := Spritebox.init scale;
       xOffset := 0; yOffset := 0; width := 0; height := 0;
       scale := scale; aux := [] |}
    (0, 0, 16, 16).

End SpriteImage.

(** ** Module globals, image cache and tile table *)

(** [os.path.join] (POSIX flavour) and the file system, as far as
    [GetImg] uses them. *)
Module os_path.

Definition endswith_sep (a : string) : bool :=
  match String.get (String.length a - 1) a with
  | Some c => Ascii.eqb c (Ascii.ascii_of_nat 47)
  | None => false
  end.

Definition join (a b : string) : string :=
  if String.prefix "/" b then b
  else if (String.eqb a "" || endswith_sep a)%bool then a +:+ b
  else a +:+ "/" +:+ b.

End os_path.

(** What the process does to the outside world, in order. *)
Inductive IOEvent : Type :=
| isfile (path : string)
| decode (path : string)
| print (msg : string).

(** A loaded tile: [tile.main] is its image. *)
Record TilesetTile : Type := mkTile { main_image : Qt.Image }.

Record Globals : Type := mkGlobals {
  OutlineColor : option Z;
  OutlinePen : option (option Z * Q);
  OutlineBrush : option (option Z);
  ImageCache : gmap string (option Qt.Image);
  Tiles : gmap Z (option TilesetTile);
  SpriteImagesLoaded : gset Z;
  SpritesFolders : list string;
  RealViewEnabled : bool;
  (** the regular files on disk, and the trace of I/O done so far *)
  files : gset string;
  trace : list IOEvent
}.

Definition set_ImageCache (c : gmap string (option Qt.Image)) (g : Globals) : Globals :=
  mkGlobals (OutlineColor g) (OutlinePen g) (OutlineBrush g) c (Tiles g)
    (SpriteImagesLoaded g) (SpritesFolders g) (RealViewEnabled g)
    (files g) (trace g).

Definition log (e : IOEvent) (g : Globals) : Globals :=
  mkGlobals (OutlineColor g) (OutlinePen g) (OutlineBrush g) (ImageCache g)
    (Tiles g) (SpriteImagesLoaded g) (SpritesFolders g) (RealViewEnabled g)
    (files g) (trace g ++ [e]).

(** [os.path.isfile(path)]. *)
Definition os_path_isfile (path : string) (g : Globals) : bool * Globals :=
  (bool_decide (path ∈ files g), log (isfile path) g).

(** [for i in range(256): Tiles[i] = None]. *)
Definition clear_tiles (tiles : gmap Z (option TilesetTile)) : gmap Z (option TilesetTile) :=
  foldl (fun m i => <[i := None]> m) tiles (seqZ 0 256).

(** [main()]: resets the module to its original settings.  Its first
    statement, [QtGui.QPen(OutlineColor, 4)], has no overload for [None]:
    while [OutlineColor] is [None] (its initial value) the call raises
    [TypeError] and nothing is reset.  The outcome and the globals at
    that point. *)
Definition main (g : Globals) : Py.result unit * Globals :=
  match OutlineColor g with
  | None => (Py.Raise Py.TypeError, g)
  | Some color =>
      (Py.Ok tt,
       mkGlobals (OutlineColor g)
         (Some (Some color, 4))
         (Some (Some color))
         ∅
         (clear_tiles (Tiles g))
         ∅
         []
         (RealViewEnabled g)
         (files g) (trace g))
  end.

(** The [for folder in reversed(SpritesFolders)] loop of [GetImg], over
    the folders already reversed. *)
Fixpoint GetImg_search (folders : list string) (imgname path : string)
    (g : Globals) : string * Globals :=
  match folders with
  | [] => (path, g)
  | folder :: rest =>
      let tryPath := os_path.join folder imgname in
      let '(found, g) := os_path_isfile tryPath g in
      if found then (tryPath, g)
      else GetImg_search rest imgname path g
  end.

(** [GetImg(imgname, image=False)]; [None] is Python's [None]. *)
Definition GetImg (imgname : string) (image : bool) (g : Globals)
    : option Qt.Image * Globals :=
  let path := os_path.join (os_path.join "reggiedata" "sprites") imgname in
  let '(path, g) := GetImg_search (rev (SpritesFolders g)) imgname path g in
  let '(found, g) := os_path_isfile path g in
  if found then
    if image then (Some (Qt.QImage path), log (decode path) g)
    else (Some (Qt.QPixmap path), log (decode path) g)
  else
    (None,
     log (print ("[Warning] Could not load sprite image (" +:+ imgname +:+ ")!")) g).

(** The message [GetImg] prints when no file is found. *)
Definition warning (imgname : string) : string :=
  "[Warning] Could not load sprite image (" +:+ imgname +:+ ")!".

(** The file [GetImg] falls back to. *)
Definition base_path (imgname : string) : string :=
  os_path.join (os_path.join "reggiedata" "sprites") imgname.

(** The index of the "Unknown Tile" override. *)
Definition unknown_tile : Z := 4 * 0x200 + 64.

(** [GetTile(tile_id)]. *)
Definition GetTile (tile_id : Z) (g : Globals) : Py.result Qt.Image :=
  match Tiles g !! tile_id with
  | None => Py.Raise Py.KeyError
  | Some tile =>
      let* tile :=
        match tile with
        | None =>
            match Tiles g !! unknown_tile with
            | None => Py.Raise Py.KeyError
            | Some tile => Py.Ok tile
            end
        | Some _ => Py.Ok tile
        end in
      match tile with
      | None => Py.Raise Py.AttributeError
      | Some tile => Py.Ok (main_image tile)
      end
  end.

(** [loadIfNotInImageCache(name, filename)]. *)
Definition loadIfNotInImageCache (name filename : string) (g : Globals) : Globals :=
  match ImageCache g !! name with
  | Some _ => g
  | None =>
      let '(img, g) := GetImg filename false g in
      set_ImageCache (<[name := img]> (ImageCache g)) g
  end.

(** ** Zones and nearest-zone lookup *)

(** References to heap objects. *)
Definition ref : Type := positive.

(** Modelled from the spec: the zone objects, whose class is defined
    outside this file.  A zone exposes a stable identifier [id], its
    rectangle in level units [ZoneRect], its bounding rectangle
    [BoundingRect], and a mutable set [aux] of auxiliary items. *)
Record Zone : Type := mkZone {
  id : Z;
  ZoneRect : Qt.QRectF;
  BoundingRect : Qt.QRectF;
  aux : gset ref
}.

(** The distance accumulated in one iteration of the loop of
    [MapPositionToZoneID], for a rectangle of coordinates [l, t, r, b]. *)
Definition zone_dist (rect : Qt.QRectF) (x y : Q) : Q :=
  let dist := 0 in
  let '(l, t, r, b) := Qt.getCoords rect in
  let dist :=
    if Py.Qltb x l then dist + Py.sqr (l - x)
    else if Py.Qltb r x then dist + Py.sqr (x - r)
    else dist in
  let dist :=
    if Py.Qltb y t then dist + Py.sqr (t - y)
    else if Py.Qltb b y then dist + Py.sqr (y - b)
    else dist in
  dist.

(** The distance in the words of the specification: on each axis nothing
    when the point is within the span of the rectangle, otherwise the
    square of the distance to the nearer of the two edges. *)
Definition spec_axis_dist2 (lo hi v : Q) : Q :=
  if (Qle_bool lo v && Qle_bool v hi)%bool then 0
  else Qmin (Py.sqr (lo - v)) (Py.sqr (v - hi)).

Definition spec_edge_dist2 (rect : Qt.QRectF) (x y : Q) : Q :=
  spec_axis_dist2 (Qt.x rect) (Qt.x rect + Qt.width rect) x +
  spec_axis_dist2 (Qt.y rect) (Qt.y rect + Qt.height rect) y.

(** The [for i, zone in enumerate(zones)] loop of [MapPositionToZoneID],
    from index [i] on, with the current [minimumdist] and [match_index]. *)
Fixpoint MapPositionToZoneID_loop (zones : list Zone) (i : Z) (x y : Q)
    (minimumdist : Q) (match_index : Z) : Z :=
  match zones with
  | [] => match_index
  | zone :: rest =>
      let rect := ZoneRect zone in
      if Qt.contains rect x y then i
      else
        let dist := zone_dist rect x y in
        if (Py.Qltb dist minimumdist || Qeq_bool minimumdist (-1))%bool
        then MapPositionToZoneID_loop rest (i + 1) x y dist i
        else MapPositionToZoneID_loop rest (i + 1) x y minimumdist match_index
  end.

(** [MapPositionToZoneID(zones, x, y, get_id=False)]. *)
Definition MapPositionToZoneID (zones : list Zone) (x y : Q) (get_id : bool)
    : Py.result Z :=
  let match_index := MapPositionToZoneID_loop zones 0 x y (-1) (-1) in
  if (match_index =? -1)%Z then Py.Ok (-1)%Z
  else if get_id then
    match zones !! Z.to_nat match_index with
    | Some zone => Py.Ok (id zone)
    | None => Py.Raise Py.IndexError
    end
  else Py.Ok match_index.

(** ** Auxiliary items attached to sprites *)

(** What an item asks of the scene graph, in order. *)
Inductive SceneEvent : Type :=
| prepareGeometryChange
| setPos (px py : Q)
| scene_update (ux uy uw uh : Q).

Module AuxiliaryTrackObject.

Definition Horizontal : Z := 1.
Definition Vertical : Z := 2.

Record t : Type := mk {
  parent : ref;
  ItemIsMovable : bool;
  ItemIsSelectable : bool;
  ItemStacksBehindParent : bool;
  parentItem : option ref;
  hover : bool;
  BoundingRect : Qt.QRectF;
  pos : Q * Q;
  width : Q;
  height : Q;
  direction : Z
}.

(** [AuxiliarySpriteItem.__init__] followed by the body of
    [AuxiliaryTrackObject.__init__(self, parent, width, height, direction)]. *)
Definition init (parent : ref) (width height : Q) (direction : Z) : t :=
  {| parent := parent;
     ItemIsMovable := false;
     ItemIsSelectable := false;
     ItemStacksBehindParent := true;
     parentItem := Some parent;
     hover := false;
     BoundingRect := Qt.mkQRectF 0 0 (width * 1.5) (height * 1.5);
     pos := (0, 0);
     width := width;
     height := height;
     direction := direction |}.

(** [setSize(self, width, height)]: the item afterwards and the scene
    events issued. *)
Definition setSize (self : t) (width height : Q) : t * list SceneEvent :=
  ({| parent := parent self;
      ItemIsMovable := ItemIsMovable self;
      ItemIsSelectable := ItemIsSelectable self;
      ItemStacksBehindParent := ItemStacksBehindParent self;
      parentItem := parentItem self;
      hover := hover self;
      BoundingRect := Qt.mkQRectF 0 0 (width * 1.5) (height * 1.5);
      pos := pos self;
      width := width;
      height := height;
      direction := direction self |},
   [prepareGeometryChange]).

Definition boundingRect (self : t) : Qt.QRectF := BoundingRect self.

(** [paint(self, painter, option, widget=None)]: [option] is [None] or
    carries its [exposedRect]. *)
Definition paint (self : t) (option : option Qt.QRectF) : list Qt.PainterCmd :=
  match option with
  | Some exposedRect => [Qt.setClipRect exposedRect; Qt.setRenderHint_Antialiasing]
  | None => []
  end ++
  [Qt.setPen_OutlinePen] ++
  if (direction self =? Horizontal)%Z then
    let lineY := height self * 0.75 in
    [Qt.drawLine 20 lineY ((width self * 1.5) - 20) lineY;
     Qt.drawEllipse 8 (lineY - 4) 8 8;
     Qt.drawEllipse ((width self * 1.5) - 16) (lineY - 4) 8 8]
  else
    let lineX := width self * 0.75 in
    [Qt.drawLine lineX 20 lineX ((height self * 1.5) - 20);
     Qt.drawEllipse (lineX - 4) 8 8 8;
     Qt.drawEllipse (lineX - 4) ((height self * 1.5) - 16) 8 8].

End AuxiliaryTrackObject.

(** The lines and the ellipses a command list draws. *)
Definition drawn_lines (cmds : list Qt.PainterCmd) : list (Q * Q * Q * Q) :=
  flat_map (fun c => match c with
                     | Qt.drawLine x1 y1 x2 y2 => [(x1, y1, x2, y2)]
                     | _ => []
                     end) cmds.

Definition drawn_ellipses (cmds : list Qt.PainterCmd) : list (Q * Q * Q * Q) :=
  flat_map (fun c => match c with
                     | Qt.drawEllipse ex ey ew eh => [(ex, ey, ew, eh)]
                     | _ => []
                     end) cmds.

(** Centre and diameters of the ellipse inscribed in [(ex, ey, ew, eh)]. *)
Definition ellipse_center (e : Q * Q * Q * Q) : Q * Q :=
  let '(ex, ey, ew, eh) := e in (ex + ew / 2, ey + eh / 2).

Definition ellipse_diameters (e : Q * Q * Q * Q) : Q * Q :=
  let '(ex, ey, ew, eh) := e in (ew, eh).

(** The parent item as its Python wrapper sees it: alive at a position, or
    deleted on the Qt side, in which case calling it raises
    [RuntimeError]. *)
Inductive ParentItem : Type :=
| alive (px py : Q)
| deleted.

Module AuxiliaryImage_FollowsRect.

Record t : Type := mk {
  parent : ParentItem;
  in_scene : bool;
  hover : bool;
  BoundingRect : Qt.QRectF;
  pos : Q * Q;
  width : Q;
  height : Q;
  image : option Qt.Image;
  alpha : Q;
  alignment : Z;
  realwidth : Q;
  realheight : Q;
  realimage : option Qt.Image
}.

(** [AuxiliaryImage.__init__] followed by the body of
    [AuxiliaryImage_FollowsRect.__init__(self, parent, width, height)]. *)
Definition init (parent : ParentItem) (in_scene : bool) (width height : Q) : t :=
  {| parent := parent; in_scene := in_scene;
     hover := true;
     BoundingRect := Qt.mkQRectF 0 0 width height;
     pos := (0, 0);
     width := width; height := height;
     image := None; alpha := 1;
     alignment := Z.lor Qt.AlignTop Qt.AlignLeft;
     realwidth := width; realheight := height;
     realimage := None |}.

(** [self.flagPresent = lambda flags, flag: flags | flag == flags]. *)
Definition flagPresent (flags flag : Z) : bool := (Z.lor flags flag =? flags)%Z.

(** Assignment of [self.width], [self.height] and [self.image]. *)
Definition with_size_image (self : t) (width height : Q) (image : option Qt.Image) : t :=
  {| parent := parent self; in_scene := in_scene self; hover := hover self;
     BoundingRect := BoundingRect self; pos := pos self;
     width := width; height := height; image := image;
     alpha := alpha self; alignment := alignment self;
     realwidth := realwidth self; realheight := realheight self;
     realimage := realimage self |}.

(** [QGraphicsItem.setPos]. *)
Definition with_pos (self : t) (newx newy : Q) : t :=
  {| parent := parent self; in_scene := in_scene self; hover := hover self;
     BoundingRect := BoundingRect self; pos := (newx, newy);
     width := width self; height := height self; image := image self;
     alpha := alpha self; alignment := alignment self;
     realwidth := realwidth self; realheight := realheight self;
     realimage := realimage self |}.

(** First part of [move]: "decide on the height to use". *)
Definition move_resize (self : t) (w h : Q) : t :=
  let width := realwidth self in
  let height := realheight self in
  let changedSize := false in
  let '(width, changedSize) :=
    if Py.Qltb w width then (w, true) else (width, changedSize) in
  let '(height, changedSize) :=
    if Py.Qltb h height then (h, true) else (height, changedSize) in
  let image :=
    match realimage self with
    | Some realimage =>
        if changedSize then Some (Qt.copy realimage 0 0 w h) else Some realimage
    | None => image self
    end in
  with_size_image self width height image.

(** Second part of [move]: the absolute coordinates from the alignment,
    computed on the item already resized. *)
Definition move_absolute (self : t) (x y w h : Q) : Q * Q :=
  let newx :=
    if flagPresent (alignment self) Qt.AlignLeft then x
    else if flagPresent (alignment self) Qt.AlignRight then x + w - width self
    else x + (w / 2) - (width self / 2) in
  let newy :=
    if flagPresent (alignment self) Qt.AlignTop then y
    else if flagPresent (alignment self) Qt.AlignBottom then y + h - height self
    else y + (h / 2) - (height self / 2) in
  (newx, newy).

(** The new position relative to the parent, as [move] computes it;
    [None] when the parent has been deleted. *)
Definition move_target (self : t) (x y w h : Q) : option (Q * Q) :=
  let self := move_resize self w h in
  let '(newx, newy) := move_absolute self x y w h in
  match parent self with
  | alive px py => Some (newx - px, newy - py)
  | deleted => None
  end.

(** [move(self, x, y, w, h)]: the item afterwards and the scene events
    issued. *)
Definition move (self : t) (x y w h : Q) : t * list SceneEvent :=
  let '(oldx, oldy) := pos self in
  let self := move_resize self w h in
  let '(newx, newy) := move_absolute self x y w h in
  match parent self with
  | deleted => (self, [])
  | alive px py =>
      let newx := newx - px in
      let newy := newy - py in
      if (Qeq_bool newx oldx && Qeq_bool newy oldy)%bool then (self, [])
      else
        (with_pos self newx newy,
         [setPos newx newy] ++
         if in_scene self
         then [scene_update (oldx + px) (oldy + py) (width self) (height self)]
         else [])
  end.

(** [paint(self, painter, option, widget=None)], given the global
    [RealViewEnabled]: the item afterwards and the painter calls. *)
Definition paint (self : t) (RealViewEnabled : bool) (option : option Qt.QRectF)
    : t * list Qt.PainterCmd :=
  if negb RealViewEnabled then (self, [])
  else
    let cmds :=
      match option with
      | Some exposedRect => [Qt.setClipRect exposedRect]
      | None => []
      end ++
      match image self with
      | Some img => [Qt.setOpacity (alpha self); Qt.drawPixmap 0 0 img; Qt.setOpacity 1]
      | None => []
      end in
    match realimage self with
    | None =>
        ({| parent := parent self; in_scene := in_scene self; hover := hover self;
            BoundingRect := BoundingRect self; pos := pos self;
            width := width self; height := height self; image := image self;
            alpha := alpha self; alignment := alignment self;
            realwidth := realwidth self; realheight := realheight self;
            realimage := image self |}, cmds)
    | Some _ => (self, cmds)
    end.

End AuxiliaryImage_FollowsRect.

(** ** Auxiliary items attached to zones *)

Module AuxiliaryZoneItem.

Record t : Type := mk {
  parent : option ref;
  imageObj : option Qt.Image;
  ItemIsMovable : bool;
  ItemIsSelectable : bool;
  ItemStacksBehindParent : bool;
  parentItem : option ref;
  hover : bool;
  pos : Q * Q;
  BoundingRect : Qt.QRectF
}.

(** Assignment of [self.parent] together with [self.setParentItem]. *)
Definition with_parent (self : t) (z : ref) : t :=
  {| parent := Some z; imageObj := imageObj self;
     ItemIsMovable := ItemIsMovable self;
     ItemIsSelectable := ItemIsSelectable self;
     ItemStacksBehindParent := ItemStacksBehindParent self;
     parentItem := Some z; hover := hover self; pos := pos self;
     BoundingRect := BoundingRect self |}.

End AuxiliaryZoneItem.

(** The heap of zones and zone items, and the global [Area]:
    [Area_zones] is [None] when [Area] has no attribute [zones] (as the
    initial [Area = None]), otherwise the list [Area.zones]. *)
Record Heap : Type := mkHeap {
  zones : gmap ref Zone;
  zone_items : gmap ref AuxiliaryZoneItem.t;
  Area_zones : option (list ref)
}.

Definition zone_with_aux (z : Zone) (s : gset ref) : Zone :=
  {| id := id z; ZoneRect := ZoneRect z; BoundingRect := BoundingRect z; aux := s |}.

(** [for iterz in Area.zones: if iterz.id == id: z = iterz], starting
    from the current value of [z]; the last matching zone wins. *)
Fixpoint find_zone (h : Heap) (zs : list ref) (zid : Z) (z : option ref)
    : Py.result (option ref) :=
  match zs with
  | [] => Py.Ok z
  | iterz :: rest =>
      match zones h !! iterz with
      | None => Py.Raise Py.AttributeError
      | Some zone =>
          if (id zone =? zid)%Z then find_zone h rest zid (Some iterz)
          else find_zone h rest zid z
      end
  end.

(** [zone.aux.remove(item)]: raises [KeyError] when [item] is not a
    member. *)
Definition aux_remove (zr item : ref) (h : Heap) : Py.result Heap :=
  match zones h !! zr with
  | None => Py.Raise Py.AttributeError
  | Some zone =>
      if bool_decide (item ∈ aux zone)
      then Py.Ok (mkHeap (<[zr := zone_with_aux zone (aux zone ∖ {[item]})]> (zones h))
                         (zone_items h) (Area_zones h))
      else Py.Raise Py.KeyError
  end.

(** [zone.aux.add(item)]. *)
Definition aux_add (zr item : ref) (h : Heap) : Py.result Heap :=
  match zones h !! zr with
  | None => Py.Raise Py.AttributeError
  | Some zone =>
      Py.Ok (mkHeap (<[zr := zone_with_aux zone (aux zone ∪ {[item]})]> (zones h))
                    (zone_items h) (Area_zones h))
  end.

(** [AuxiliaryZoneItem.setZoneID(self, id)]: the outcome (a normal return
    or the exception raised) and the heap at that point. *)
Definition setZoneID (self : ref) (zid : Z) (h : Heap) : Py.result unit * Heap :=
  match Area_zones h with
  | None => (Py.Ok tt, h)
  | Some zs =>
      match find_zone h zs zid None with
      | Py.Raise e => (Py.Raise e, h)
      | Py.Ok None => (Py.Raise Py.ValueError, h)
      | Py.Ok (Some z) =>
          match zone_items h !! self with
          | None => (Py.Raise Py.AttributeError, h)
          | Some item =>
              match
                match AuxiliaryZoneItem.parent item with
                | Some p => aux_remove p self h
                | None => Py.Ok h
                end
              with
              | Py.Raise e => (Py.Raise e, h)
              | Py.Ok h1 =>
                  let h2 :=
                    mkHeap (zones h1)
                      (<[self := AuxiliaryZoneItem.with_parent item z]> (zone_items h1))
                      (Area_zones h1) in
                  match aux_add z self h2 with
                  | Py.Raise e => (Py.Raise e, h2)
                  | Py.Ok h3 => (Py.Ok tt, h3)
                  end
              end
          end
      end
  end.

(** No zone of the area's collection has the id [zid]; the collection is
    empty when [Area] has none. *)
Definition no_zone_with_id (h : Heap) (zid : Z) : Prop :=
  forall r, r ∈ default [] (Area_zones h) ->
    exists z, zones h !! r = Some z /\ id z <> zid.

(** [AuxiliaryZoneItem.alignToZone(self)]. *)
Definition alignToZone (self : ref) (h : Heap) : Py.result Heap :=
  match zone_items h !! self with
  | None => Py.Raise Py.AttributeError
  | Some item =>
      let* rect :=
        match AuxiliaryZoneItem.parent item with
        | Some p =>
            match zones h !! p with
            | Some zone => Py.Ok (BoundingRect zone)
            | None => Py.Raise Py.AttributeError
            end
        | None => Py.Ok (Qt.mkQRectF 0 0 24 24)
        end in
      Py.Ok (mkHeap (zones h)
               (<[self := AuxiliaryZoneItem.mk
                   (AuxiliaryZoneItem.parent item)
                   (AuxiliaryZoneItem.imageObj item)
                   (AuxiliaryZoneItem.ItemIsMovable item)
                   (AuxiliaryZoneItem.ItemIsSelectable item)
                   (AuxiliaryZoneItem.ItemStacksBehindParent item)
                   (AuxiliaryZoneItem.parentItem item)
                   (AuxiliaryZoneItem.hover item)
                   (0, 0) rect]> (zone_items h))
               (Area_zones h))
  end.

(** ** Static sprite images *)

(** Painter calls beyond those of [Qt.PainterCmd]. *)
Inductive PainterOp : Type :=
| op (c : Qt.PainterCmd)
| save
| restore
| scale_by (sx sy : Q)
| setRenderHint_SmoothPixmapTransform
| drawEllipse_rect (r : Qt.QRectF)
| drawPie (r : Qt.QRectF) (startAngle spanAngle : Q).

Module SpriteImage_Static.

(** [SpriteImage_Static.__init__(self, parent, scale=1.5, image=None,
    offset=None)]; [dims] gives [image.width()] and [image.height()] of a
    decoded image. *)
Definition init (dims : Qt.Image -> Q * Q) (parent : positive) (scale : Q)
    (image : option Qt.Image) (offset : option (Q * Q))
    : Py.result SpriteImage.t :=
  let self := SpriteImage.init parent scale in
  let box := SpriteImage.spritebox self in
  let self :=
    SpriteImage.mk (SpriteImage.parent self) (SpriteImage.alpha self) image
      (Spritebox.mk false (Spritebox.xOffset box) (Spritebox.yOffset box)
         (Spritebox.width box) (Spritebox.height box) (Spritebox.scale box))
      (SpriteImage.xOffset self) (SpriteImage.yOffset self)
      (SpriteImage.width self) (SpriteImage.height self)
      (SpriteImage.scale self) (SpriteImage.aux self) in
  let* self :=
    match SpriteImage.image self with
    | Some img =>
        let* w := Py.truediv (dims img).1 (SpriteImage.scale self) in
        let* h := Py.truediv (dims img).2 (SpriteImage.scale self) in
        Py.Ok (SpriteImage.setSize self (w + 1, h + 2))
    | None => Py.Ok self
    end in
  match offset with
  | Some offset => Py.Ok (SpriteImage.setOffset self offset)
  | None => Py.Ok self
  end.

(** [SpriteImage_Static.dataChanged(self)]. *)
Definition dataChanged (dims : Qt.Image -> Q * Q) (self : SpriteImage.t)
    : Py.result SpriteImage.t :=
  match SpriteImage.image self with
  | Some img =>
      let* w := Py.truediv (dims img).1 (SpriteImage.scale self) in
      let* h := Py.truediv (dims img).2 (SpriteImage.scale self) in
      Py.Ok (SpriteImage.setSize self (w + 1, h + 2))
  | None => Py.Ok (SpriteImage.delSize self)
  end.

(** [SpriteImage_Static.paint(self, painter)]: the painter calls made
    before the call returns or raises. *)
Definition paint (self : SpriteImage.t) : Py.result unit * list PainterOp :=
  match SpriteImage.image self with
  | None => (Py.Ok tt, [])
  | Some img =>
      let before := [save; op (Qt.setOpacity (SpriteImage.alpha self))] in
      match Py.truediv 1.5 (SpriteImage.scale self) with
      | Py.Raise e => (Py.Raise e, before)
      | Py.Ok k =>
          (Py.Ok tt,
           before ++
           [scale_by k k; setRenderHint_SmoothPixmapTransform;
            op (Qt.drawPixmap 0 0 img); restore])
      end
  end.

End SpriteImage_Static.

(** ** Circle and rotation outlines *)

(** Truth of [flags & flag] in a condition. *)
Definition flag_set (flags flag : Z) : bool := negb (Z.land flags flag =? 0)%Z.

Module AuxiliaryCircleOutline.

Record t : Type := mk {
  parent : ref;
  hover : bool;
  fillFlag : bool;
  alignMode : Z;
  BoundingRect : Qt.QRectF;
  pos : Q * Q;
  width : Q
}.

(** [setSize(self, width)]: the item afterwards and the scene events
    issued. *)
Definition setSize (self : t) (width : Q) : t * list SceneEvent :=
  let centerOffset := (8 - (width / 2)) * 1.5 in
  let fullOffset := - (width * 1.5) + 24 in
  let xval :=
    if flag_set (alignMode self) Qt.AlignHCenter then centerOffset
    else if flag_set (alignMode self) Qt.AlignRight then fullOffset
    else 0 in
  let yval :=
    if flag_set (alignMode self) Qt.AlignVCenter then centerOffset
    else if flag_set (alignMode self) Qt.AlignBottom then fullOffset
    else 0 in
  ({| parent := parent self; hover := hover self; fillFlag := fillFlag self;
      alignMode := alignMode self;
      BoundingRect := Qt.mkQRectF 0 0 (width * 1.5) (width * 1.5);
      pos := (xval, yval);
      width := width |},
   [prepareGeometryChange; setPos xval yval]).

(** [AuxiliaryCircleOutline.__init__(self, parent, width,
    alignMode=Qt.AlignHCenter)]; the width field is unset until [setSize]
    assigns it. *)
Definition init (parent : ref) (width : Q) (alignMode : Z) : t :=
  (setSize
     {| parent := parent; hover := false; fillFlag := true;
        alignMode := alignMode;
        BoundingRect := Qt.mkQRectF 0 0 24 24;
        pos := (0, 0);
        width := 0 |}
     width).1.

(** [paint(self, painter, option, widget=None)]. *)
Definition paint (self : t) : list PainterOp :=
  [op Qt.setRenderHint_Antialiasing; op Qt.setPen_OutlinePen] ++
  (if fillFlag self then [op Qt.setBrush_OutlineBrush] else []) ++
  [drawEllipse_rect (BoundingRect self)].

End AuxiliaryCircleOutline.

Module AuxiliaryRotationAreaOutline.

Record t : Type := mk {
  parent : ref;
  hover : bool;
  BoundingRect : Qt.QRectF;
  pos : Q * Q;
  width : Q;
  startAngle : Q;
  spanAngle : Q
}.

(** [AuxiliaryRotationAreaOutline.__init__(self, parent, width)]. *)
Definition init (parent : ref) (width : Q) : t :=
  {| parent := parent; hover := false;
     BoundingRect := Qt.mkQRectF 0 0 (width * 1.5) (width * 1.5);
     pos := ((8 - (width / 2)) * 1.5, (8 - (width / 2)) * 1.5);
     width := width; startAngle := 0; spanAngle := 0 |}.

(** [SetAngle(self, startAngle, spanAngle)]. *)
Definition SetAngle (self : t) (startAngle spanAngle : Q) : t :=
  {| parent := parent self; hover := hover self;
     BoundingRect := BoundingRect self; pos := pos self; width := width self;
     startAngle := startAngle * 16; spanAngle := spanAngle * 16 |}.

(** [paint(self, painter, option, widget=None)]. *)
Definition paint (self : t) : list PainterOp :=
  [op Qt.setRenderHint_Antialiasing; op Qt.setPen_OutlinePen;
   op Qt.setBrush_OutlineBrush;
   drawPie (BoundingRect self) (startAngle self) (spanAngle self)].

End AuxiliaryRotationAreaOutline.

(** The rectangle an item covers in its parent's coordinates: its
    bounding rectangle moved to its position. *)
Definition covered (pos : Q * Q) (r : Qt.QRectF) : Qt.QRectF :=
  Qt.mkQRectF (pos.1 + Qt.x r) (pos.2 + Qt.y r) (Qt.width r) (Qt.height r).

(** Centre of a rectangle. *)
Definition rect_center (r : Qt.QRectF) : Q * Q :=
  (Qt.x r + Qt.width r / 2, Qt.y r + Qt.height r / 2).

(** ** More of the image items *)

(** [AuxiliaryImage.setSize(self, width, height, xoff=0, yoff=0)] on an
    [AuxiliaryImage_FollowsRect]. *)
Definition AuxiliaryImage_setSize (self : AuxiliaryImage_FollowsRect.t)
    (width height xoff yoff : Q)
    : AuxiliaryImage_FollowsRect.t * list SceneEvent :=
  (AuxiliaryImage_FollowsRect.mk
     (AuxiliaryImage_FollowsRect.parent self)
     (AuxiliaryImage_FollowsRect.in_scene self)
     (AuxiliaryImage_FollowsRect.hover self)
     (Qt.mkQRectF 0 0 width height)
     (xoff, yoff)
     width height
     (AuxiliaryImage_FollowsRect.image self)
     (AuxiliaryImage_FollowsRect.alpha self)
     (AuxiliaryImage_FollowsRect.alignment self)
     (AuxiliaryImage_FollowsRect.realwidth self)
     (AuxiliaryImage_FollowsRect.realheight self)
     (AuxiliaryImage_FollowsRect.realimage self),
   [prepareGeometryChange; setPos xoff yoff]).

(** [AuxiliaryImage_FollowsRect.setSize(self, width, height)]. *)
Definition AuxiliaryImage_FollowsRect_setSize (self : AuxiliaryImage_FollowsRect.t)
    (width height : Q) : AuxiliaryImage_FollowsRect.t * list SceneEvent :=
  let '(self, events) := AuxiliaryImage_setSize self width height 0 0 in
  (AuxiliaryImage_FollowsRect.mk
     (AuxiliaryImage_FollowsRect.parent self)
     (AuxiliaryImage_FollowsRect.in_scene self)
     (AuxiliaryImage_FollowsRect.hover self)
     (AuxiliaryImage_FollowsRect.BoundingRect self)
     (AuxiliaryImage_FollowsRect.pos self)
     (AuxiliaryImage_FollowsRect.width self)
     (AuxiliaryImage_FollowsRect.height self)
     (AuxiliaryImage_FollowsRect.image self)
     (AuxiliaryImage_FollowsRect.alpha self)
     (AuxiliaryImage_FollowsRect.alignment self)
     width height
     (AuxiliaryImage_FollowsRect.realimage self),
   events).

(** ** More of the zone items *)

(** [AuxiliaryZoneItem.__init__(self, parent, imageObj)], the new item
    being stored at the reference [self]. *)
Definition AuxiliaryZoneItem_init (self : ref) (parent : option ref)
    (imageObj : option Qt.Image) (h : Heap) : Py.result Heap :=
  let item :=
    {| AuxiliaryZoneItem.parent := parent;
       AuxiliaryZoneItem.imageObj := imageObj;
       AuxiliaryZoneItem.ItemIsMovable := false;
       AuxiliaryZoneItem.ItemIsSelectable := false;
       AuxiliaryZoneItem.ItemStacksBehindParent := false;
       AuxiliaryZoneItem.parentItem := parent;
       AuxiliaryZoneItem.hover := false;
       AuxiliaryZoneItem.pos := (0, 0);
       AuxiliaryZoneItem.BoundingRect := Qt.mkQRectF 0 0 24 24 |} in
  let h := mkHeap (zones h) (<[self := item]> (zone_items h)) (Area_zones h) in
  match parent with
  | Some p => aux_add p self h
  | None => Py.Ok h
  end.

(** The item [self] is in the aux set of its parent zone and of no other
    zone. *)
Definition owned_by_parent (h : Heap) (self : ref) : Prop :=
  exists item,
    zone_items h !! self = Some item /\
    forall zr zone, zones h !! zr = Some zone ->
      (self ∈ aux zone <-> AuxiliaryZoneItem.parent item = Some zr).

(** Exchange of the two axes in a line or a rectangle given by four
    numbers. *)
Definition transpose4 (a : Q * Q * Q * Q) : Q * Q * Q * Q :=
  let '(a0, a1, a2, a3) := a in (a1, a0, a3, a2).

(** Middle of the line [(x1, y1, x2, y2)]. *)
Definition line_middle (a : Q * Q * Q * Q) : Q * Q :=
  let '(x1, y1, x2, y2) := a in ((x1 + x2) / 2, (y1 + y2) / 2).

(** ** Sample states *)

Module Sample.

(** Globals with one override folder, one file on disk, an empty slot 3
    and a tile in the override slot. *)
Definition globals : Globals :=
  {| OutlineColor := None; OutlinePen := None; OutlineBrush := None;
     ImageCache := {[ "goomba" := Some (Qt.QPixmap "reggiedata/sprites/goomba.png") ]};
     Tiles := <[3%Z := None]> {[ unknown_tile := Some (mkTile (Qt.QPixmap "unknown.png")) ]};
     SpriteImagesLoaded := ∅;
     SpritesFolders := ["patches/newer"];
     RealViewEnabled := false;
     files := {[ "reggiedata/sprites/goomba.png" ]};
     trace := [] |}.

(** The same globals once the outline colour has been set. *)
Definition coloured_globals : Globals :=
  {| OutlineColor := Some 0xFFFFFF%Z;
     OutlinePen := OutlinePen globals; OutlineBrush := OutlineBrush globals;
     ImageCache := ImageCache globals; Tiles := Tiles globals;
     SpriteImagesLoaded := SpriteImagesLoaded globals;
     SpritesFolders := SpritesFolders globals;
     RealViewEnabled := RealViewEnabled globals;
     files := files globals; trace := trace globals |}.

Definition zone (zid : Z) (x y w h : Q) (items : gset ref) : Zone :=
  {| id := zid; ZoneRect := Qt.mkQRectF x y w h;
     BoundingRect := Qt.mkQRectF 0 0 (w * 1.5) (h * 1.5); aux := items |}.

(** Three zones side by side, none containing the point (50, 50). *)
Definition three_zones : list Zone :=
  [zone 1 0 0 16 16 ∅; zone 2 100 0 16 16 ∅; zone 3 0 100 16 16 ∅].

Definition zone_item (p : option ref) : AuxiliaryZoneItem.t :=
  {| AuxiliaryZoneItem.parent := p;
     AuxiliaryZoneItem.imageObj := None;
     AuxiliaryZoneItem.ItemIsMovable := false;
     AuxiliaryZoneItem.ItemIsSelectable := false;
     AuxiliaryZoneItem.ItemStacksBehindParent := false;
     AuxiliaryZoneItem.parentItem := p;
     AuxiliaryZoneItem.hover := false;
     AuxiliaryZoneItem.pos := (0, 0);
     AuxiliaryZoneItem.BoundingRect := Qt.mkQRectF 0 0 24 24 |}.

(** Zones 10 and 11 (ids 1 and 2) and the item 20, attached to zone 10. *)
Definition heap (area : option (list ref)) : Heap :=
  {| zones := <[10%positive := zone 1 0 0 16 16 {[ 20%positive ]}]>
                {[ 11%positive := zone 2 100 0 16 16 ∅ ]};
     zone_items := {[ 20%positive := zone_item (Some 10%positive) ]};
     Area_zones := area |}.

(** A 10 by 10 image item at the origin of a parent at the origin. *)
Definition follower : AuxiliaryImage_FollowsRect.t :=
  AuxiliaryImage_FollowsRect.init (alive 0 0) true 10 10.

End Sample.

(** * Properties *)

(** ** Numbers *)

#[global] Instance Q_equivalence : Equivalence (≡@{Q}).
Proof. unfold equiv, Q_equiv. apply Q_Setoid. Qed.

Lemma Qltb_lt (a b : Q) : Py.Qltb a b = true <-> a < b.
Proof.
  unfold Py.Qltb. rewrite negb_true_iff.
  destruct (Qle_bool b a) eqn:E.
  - apply Qle_bool_iff in E. split; [discriminate | intros H; lra].
  - split; [intros _ | reflexivity].
    apply Qnot_le_lt. intros H. apply Qle_bool_iff in H. congruence.
Qed.

Lemma Qltb_ge (a b : Q) : Py.Qltb a b = false <-> b <= a.
Proof.
  split; intros H.
  - apply Qnot_lt_le. intros Hlt. apply Qltb_lt in Hlt. congruence.
  - destruct (Py.Qltb a b) eqn:E; [|reflexivity].
    apply Qltb_lt in E. lra.
Qed.

Lemma sqr_nonneg (a : Q) : 0 <= Py.sqr a.
Proof. unfold Py.sqr. simpl. nra. Qed.

Lemma truediv_nonzero (a b : Q) : ~ b == 0 -> Py.truediv a b = Py.Ok (a / b).
Proof.
  intros Hb. unfold Py.truediv.
  destruct (Qeq_bool b 0) eqn:E; [|reflexivity].
  apply Qeq_bool_iff in E. contradiction.
Qed.

(** Case analysis on every comparison in the goal. *)
Ltac case_Qltb :=
  repeat match goal with
         | |- context [Py.Qltb ?a ?b] =>
             let E := fresh "E" in
             destruct (Py.Qltb a b) eqn:E;
             [apply Qltb_lt in E | apply Qltb_ge in E]
         end.

(** Closed goals on rationals, by evaluation. *)
Ltac Qeval :=
  lazymatch goal with
  | |- ~ _ => let H := fresh in intros H; vm_compute in H; discriminate H
  | |- _ => vm_compute; reflexivity
  end.

Ltac Qevals := repeat (split || constructor); Qeval.

(** ** Dimensions of sprite images and spriteboxes *)

(** C8: for every dimensions tuple [D], [setDimensions(D)] followed by
    [getDimensions()] returns [D] exactly, on a [SpriteImage] and on a
    [Spritebox]. *)
Theorem setDimensions_getDimensions (D : Dimensions)
    (img : SpriteImage.t) (box : Spritebox.t) :
  SpriteImage.getDimensions (SpriteImage.setDimensions img D) = D /\
  Spritebox.getDimensions (Spritebox.setDimensions box D) = D.
Proof. destruct D as [[[d0 d1] d2] d3]. split; reflexivity. Qed.

Lemma delDimensions_default (img : SpriteImage.t) (box : Spritebox.t) :
  SpriteImage.getDimensions (SpriteImage.delDimensions img) = (0, 0, 16, 16) /\
  Spritebox.getDimensions (Spritebox.delDimensions box) = (0, 0, 16, 16).
Proof. split; reflexivity. Qed.

Lemma SpriteImage_init_dimensions (parent : positive) (scale : Q) :
  SpriteImage.getDimensions (SpriteImage.init parent scale) = (0, 0, 16, 16).
Proof. reflexivity. Qed.

(** ** The derived rectangles of a spritebox *)

(** C6: [RoundedRect] reads [((x*scale)+1, (y*scale)+1, (w*scale)-2,
    (h*scale)-2)] and [BoundingRect] reads [(x*scale, y*scale, w*scale,
    h*scale)], both computed from the fields as they are at the access (so
    after [setDimensions(D)] they follow [D]); with offset (0,0), size
    (16,16) and scale 1.5 they are (1,1,22,22) and (0,0,24,24). *)
Theorem Spritebox_getRR_getBR (box : Spritebox.t) :
  Spritebox.getRR box =
    Qt.mkQRectF
      (Spritebox.xOffset box * Spritebox.scale box + 1)
      (Spritebox.yOffset box * Spritebox.scale box + 1)
      (Spritebox.width box * Spritebox.scale box - 2)
      (Spritebox.height box * Spritebox.scale box - 2) /\
  Spritebox.getBR box =
    Qt.mkQRectF
      (Spritebox.xOffset box * Spritebox.scale box)
      (Spritebox.yOffset box * Spritebox.scale box)
      (Spritebox.width box * Spritebox.scale box)
      (Spritebox.height box * Spritebox.scale box) /\
  (forall x y w h : Q,
     let box' := Spritebox.setDimensions box (x, y, w, h) in
     let s := Spritebox.scale box in
     Spritebox.getRR box' = Qt.mkQRectF (x * s + 1) (y * s + 1) (w * s - 2) (h * s - 2) /\
     Spritebox.getBR box' = Qt.mkQRectF (x * s) (y * s) (w * s) (h * s)) /\
  (Spritebox.getOffset box ≡ (0, 0) ->
   Spritebox.getSize box ≡ (16, 16) ->
   Spritebox.scale box == 1.5 ->
   Spritebox.getRR box ≡ Qt.mkQRectF 1 1 22 22 /\
   Spritebox.getBR box ≡ Qt.mkQRectF 0 0 24 24).
Proof.
  split; [reflexivity|]. split; [reflexivity|]. split.
  { intros; split; reflexivity. }
  intros [Hx Hy] [Hw Hh] Hs. simpl in Hx, Hy, Hw, Hh.
  unfold equiv, Q_equiv in Hx, Hy, Hw, Hh.
  split; repeat split; simpl; rewrite ?Hx, ?Hy, ?Hw, ?Hh, Hs; Qeval.
Qed.

Lemma Spritebox_getRR_getBR_witness :
  Spritebox.getRR (Spritebox.init 1.5) ≡ Qt.mkQRectF 1 1 22 22 /\
  Spritebox.getBR (Spritebox.init 1.5) ≡ Qt.mkQRectF 0 0 24 24.
Proof.
  apply (Spritebox_getRR_getBR (Spritebox.init 1.5)).
  - split; reflexivity.
  - split; reflexivity.
  - reflexivity.
Defined.

(** Setting [RoundedRect] divides by the scale and then undoes the inset. *)
Lemma Spritebox_setRR_dimensions (box : Spritebox.t) (R : Qt.QRectF) :
  ~ Spritebox.scale box == 0 ->
  exists box',
    Spritebox.setRR box R = Py.Ok box' /\
    Spritebox.getDimensions box' =
      (Qt.x R / Spritebox.scale box - 1,
       Qt.y R / Spritebox.scale box - 1,
       Qt.width R / Spritebox.scale box + 2,
       Qt.height R / Spritebox.scale box + 2) /\
    Spritebox.scale box' = Spritebox.scale box /\
    Spritebox.shown box' = Spritebox.shown box.
Proof.
  intros Hs. unfold Spritebox.setRR.
  rewrite !truediv_nonzero by assumption. simpl.
  eexists. split; [reflexivity|]. repeat split.
Qed.


(** Setting [BoundingRect] multiplies by the scale, as the getter does. *)
Lemma Spritebox_setBR_dimensions (box : Spritebox.t) (R : Qt.QRectF) :
  Spritebox.getDimensions (Spritebox.setBR box R) =
    (Qt.x R * Spritebox.scale box,
     Qt.y R * Spritebox.scale box,
     Qt.width R * Spritebox.scale box,
     Qt.height R * Spritebox.scale box).
Proof. reflexivity. Qed.

(** C2, at a spritebox of scale 1.5 and the rectangle (0,0,24,24):
    setting [RoundedRect] gives the dimensions (R.x/scale - 1, R.y/scale
    - 1, R.w/scale + 2, R.h/scale + 2) = (-1,-1,18,18), but setting
    [BoundingRect] gives (0,0,36,36), the rectangle multiplied by the
    scale, and not (R.x/scale, R.y/scale, R.w/scale, R.h/scale) =
    (0,0,16,16); reading [BoundingRect] back then gives (0,0,54,54). *)
Theorem Spritebox_setBR_multiplies :
  let box := Spritebox.init 1.5 in
  let R := Qt.mkQRectF 0 0 24 24 in
  (exists box',
     Spritebox.setRR box R = Py.Ok box' /\
     Spritebox.getDimensions box' ≡@{Q * Q * Q * Q} (-1, -1, 18, 18)) /\
  Spritebox.getDimensions (Spritebox.setBR box R) ≡@{Q * Q * Q * Q} (0, 0, 36, 36) /\
  (Qt.x R / 1.5, Qt.y R / 1.5, Qt.width R / 1.5, Qt.height R / 1.5)
    ≡@{Q * Q * Q * Q} (0, 0, 16, 16) /\
  ~ Spritebox.getDimensions (Spritebox.setBR box R) ≡@{Q * Q * Q * Q} (0, 0, 16, 16) /\
  Spritebox.getBR (Spritebox.setBR box R) ≡ Qt.mkQRectF 0 0 54 54.
Proof.
  intros box R. split.
  { eexists. split; [reflexivity|]. Qevals. }
  split; [Qevals|]. split; [Qevals|]. split; [|Qevals].
  intros [[[_ _] Hw] _]. vm_compute in Hw. discriminate Hw.
Qed.

(** ** The track behind moving platforms *)

(** The track formulas, for any size: the horizontal line sits at
    [height * 0.75], half the height of the bounding rectangle, and runs
    from 20 to [width * 1.5 - 20]. *)
Lemma track_horizontal_paint (parent : ref) (width height : Q)
    (option : option Qt.QRectF) :
  let track := AuxiliaryTrackObject.init parent width height
                 AuxiliaryTrackObject.Horizontal in
  AuxiliaryTrackObject.boundingRect track =
    Qt.mkQRectF 0 0 (width * 1.5) (height * 1.5) /\
  drawn_lines (AuxiliaryTrackObject.paint track option) =
    [(20, height * 0.75, width * 1.5 - 20, height * 0.75)] /\
  drawn_ellipses (AuxiliaryTrackObject.paint track option) =
    [(8, height * 0.75 - 4, 8, 8); (width * 1.5 - 16, height * 0.75 - 4, 8, 8)].
Proof. destruct option; repeat split. Qed.

Lemma track_vertical_paint (parent : ref) (width height : Q)
    (option : option Qt.QRectF) :
  let track := AuxiliaryTrackObject.init parent width height
                 AuxiliaryTrackObject.Vertical in
  drawn_lines (AuxiliaryTrackObject.paint track option) =
    [(width * 0.75, 20, width * 0.75, height * 1.5 - 20)] /\
  drawn_ellipses (AuxiliaryTrackObject.paint track option) =
    [(width * 0.75 - 4, 8, 8, 8); (width * 0.75 - 4, height * 1.5 - 16, 8, 8)].
Proof. destruct option; repeat split. Qed.

(** Resizing announces the geometry change and recomputes the bounding
    rectangle. *)
Lemma track_setSize (track : AuxiliaryTrackObject.t) (width height : Q) :
  (AuxiliaryTrackObject.setSize track width height).2 = [prepareGeometryChange] /\
  AuxiliaryTrackObject.boundingRect
    (AuxiliaryTrackObject.setSize track width height).1 =
    Qt.mkQRectF 0 0 (width * 1.5) (height * 1.5).
Proof. split; reflexivity. Qed.

(** C1 as stated fails: for the horizontal track of width 100 and height
    16 the line drawn is not the line at y=18 from x=20 to x=130. *)
Lemma track_line_not_at_18 :
  ~ drawn_lines
      (AuxiliaryTrackObject.paint
         (AuxiliaryTrackObject.init 1%positive 100 16 AuxiliaryTrackObject.Horizontal)
         None)
    ≡ [(20, 18, 130, 18)].
Proof.
  intros H. inversion H as [|p q l k [[[_ Hy] _] _] _]; subst.
  vm_compute in Hy. discriminate Hy.
Qed.

(** C1, amended: for the horizontal track of width 100 and height 16 the
    bounding rectangle is (0,0,150,24), and paint draws one line, at y=12
    (half the height of the bounding rectangle) from x=20 to x=130, and
    two circles of diameter 8 centred on that line at x=12 and x=138,
    that is 12 units inside each end of the bounding rectangle. *)
Theorem track_horizontal_100_16 (parent : ref) (option : option Qt.QRectF) :
  let track := AuxiliaryTrackObject.init parent 100 16
                 AuxiliaryTrackObject.Horizontal in
  let cmds := AuxiliaryTrackObject.paint track option in
  AuxiliaryTrackObject.boundingRect track ≡ Qt.mkQRectF 0 0 150 24 /\
  drawn_lines cmds ≡ [(20, 12, 130, 12)] /\
  map ellipse_diameters (drawn_ellipses cmds) ≡ [(8, 8); (8, 8)] /\
  map ellipse_center (drawn_ellipses cmds) ≡ [(0 + 12, 12); (150 - 12, 12)].
Proof. destruct option; Qevals. Qed.

(** ** The tile table *)

Lemma clear_tiles_lookup (l : list Z) (tiles : gmap Z (option TilesetTile)) (k : Z) :
  foldl (fun m i => <[i := None]> m) tiles l !! k =
    if decide (k ∈ l) then Some None else tiles !! k.
Proof.
  revert tiles. induction l as [|i l IH]; intros tiles; simpl.
  - destruct (decide (k ∈ [])) as [H|H]; [inversion H | reflexivity].
  - rewrite IH. destruct (decide (k ∈ l)) as [Hin|Hnin].
    + rewrite decide_True; [reflexivity | by right].
    + destruct (decide (k = i)) as [->|Hne].
      * rewrite lookup_insert_eq. rewrite decide_True; [reflexivity | by left].
      * rewrite lookup_insert_ne by congruence.
        rewrite decide_False; [reflexivity|].
        intros H. apply elem_of_cons in H. tauto.
Qed.

(** [main()] raises while no outline colour is set, and returns
    normally once one is. *)
Lemma main_outcome (g : Globals) :
  (OutlineColor g = None -> main g = (Py.Raise Py.TypeError, g)) /\
  (OutlineColor g <> None -> (main g).1 = Py.Ok tt).
Proof.
  unfold main. destruct (OutlineColor g); split; intros H;
    try reflexivity; congruence.
Qed.

(** After a [main()] that returns, the 256 slots 0..255 hold no tile, and
    every other slot, the override slot among them, is as it was
    before. *)
Lemma main_Tiles (g : Globals) (k : Z) :
  OutlineColor g <> None ->
  Tiles (main g).2 !! k =
    if decide (0 <= k < 256)%Z then Some None else Tiles g !! k.
Proof.
  intros Hcolor. unfold main.
  destruct (OutlineColor g) as [color|]; [|congruence].
  cbn [snd Tiles]. unfold clear_tiles. rewrite clear_tiles_lookup.
  destruct (decide (k ∈ seqZ 0 256)) as [Hin|Hnin];
    rewrite elem_of_seqZ in *; case_decide; try reflexivity; lia.
Qed.

Lemma unknown_tile_outside_table : ~ (0 <= unknown_tile < 256)%Z.
Proof. unfold unknown_tile. lia. Qed.

(** C4: when the slot of [tile_id] holds no loaded tile, [GetTile(tile_id)]
    has the outcome of [GetTile] at the override slot [4*0x200+64]; when
    that slot holds a tile, both return its image. *)
Theorem GetTile_empty_slot (g : Globals) (tile_id : Z) :
  Tiles g !! tile_id = Some None ->
  GetTile tile_id g = GetTile (4 * 0x200 + 64) g /\
  (forall tile, Tiles g !! unknown_tile = Some (Some tile) ->
     GetTile tile_id g = Py.Ok (main_image tile) /\
     GetTile unknown_tile g = Py.Ok (main_image tile)).
Proof.
  intros Hid. change (4 * 0x200 + 64)%Z with unknown_tile.
  unfold GetTile. rewrite Hid. simpl. split.
  - destruct (Tiles g !! unknown_tile) as [[tile|]|] eqn:E; simpl;
      rewrite ?E; reflexivity.
  - intros tile E. rewrite E. simpl. split; reflexivity.
Qed.

(** ** The image cache *)

(** Logging several events in a row. *)
Lemma log_all_trace (es : list IOEvent) (g : Globals) :
  trace (foldl (fun g e => log e g) g es) = trace g ++ es /\
  files (foldl (fun g e => log e g) g es) = files g /\
  ImageCache (foldl (fun g e => log e g) g es) = ImageCache g /\
  SpritesFolders (foldl (fun g e => log e g) g es) = SpritesFolders g.
Proof.
  revert g. induction es as [|e es IH]; intros g; simpl.
  - rewrite app_nil_r. repeat split.
  - destruct (IH (log e g)) as (Ht & Hf & Hc & Hs).
    rewrite Ht, Hf, Hc, Hs. simpl. rewrite <- app_assoc. repeat split.
Qed.

(** The search through the folders leaves the cache alone. *)
Lemma GetImg_search_ImageCache (folders : list string) (imgname path : string)
    (g : Globals) :
  ImageCache (GetImg_search folders imgname path g).2 = ImageCache g.
Proof.
  revert g. induction folders as [|folder rest IH]; intros g; simpl.
  - reflexivity.
  - destruct (bool_decide _); simpl; [reflexivity|].
    rewrite IH. reflexivity.
Qed.

Lemma GetImg_ImageCache (imgname : string) (image : bool) (g : Globals) :
  ImageCache (GetImg imgname image g).2 = ImageCache g.
Proof.
  unfold GetImg.
  pose proof (GetImg_search_ImageCache (rev (SpritesFolders g)) imgname
    (os_path.join (os_path.join "reggiedata" "sprites") imgname) g) as H.
  destruct (GetImg_search _ _ _ g) as [path g1]. simpl in H.
  simpl. destruct (bool_decide _); [destruct image|]; simpl; exact H.
Qed.

(** With no candidate file on disk, the search probes every folder and
    keeps the path it was given. *)
Lemma GetImg_search_missing (folders : list string) (imgname path : string)
    (g : Globals) :
  (forall folder, folder ∈ folders -> os_path.join folder imgname ∉ files g) ->
  GetImg_search folders imgname path g =
    (path,
     foldl (fun g e => log e g) g
       (map (fun folder => isfile (os_path.join folder imgname)) folders)).
Proof.
  revert g. induction folders as [|folder rest IH]; intros g Hno; simpl.
  - reflexivity.
  - rewrite bool_decide_eq_false_2 by (apply Hno; left).
    apply IH. intros f Hf. simpl. apply Hno. by right.
Qed.

(** An entry already present makes the call a no-op on the whole state,
    the trace of I/O included: nothing is probed, decoded or printed. *)
Lemma loadIfNotInImageCache_present (name filename : string) (g : Globals) :
  is_Some (ImageCache g !! name) ->
  loadIfNotInImageCache name filename g = g.
Proof.
  intros [v Hv]. unfold loadIfNotInImageCache. rewrite Hv. reflexivity.
Qed.

Lemma loadIfNotInImageCache_absent (name filename : string) (g : Globals) :
  ImageCache g !! name = None ->
  ImageCache (loadIfNotInImageCache name filename g) =
    <[name := (GetImg filename false g).1]> (ImageCache g).
Proof.
  intros Hv. unfold loadIfNotInImageCache. rewrite Hv.
  pose proof (GetImg_ImageCache filename false g) as H.
  destruct (GetImg filename false g) as [img g1]. simpl in *.
  rewrite H. reflexivity.
Qed.

Lemma loadIfNotInImageCache_entry (name filename : string) (g : Globals) :
  is_Some (ImageCache (loadIfNotInImageCache name filename g) !! name).
Proof.
  destruct (ImageCache g !! name) as [v|] eqn:Hv.
  - rewrite loadIfNotInImageCache_present by eauto. eauto.
  - rewrite loadIfNotInImageCache_absent by assumption.
    rewrite lookup_insert_eq. eauto.
Qed.

(** C9: [loadIfNotInImageCache] is idempotent.  With an entry for [name]
    present the call changes nothing (no I/O, the entry is the very same
    value); a second call after a first one, whatever the file name,
    changes nothing; and only an absent entry is populated, with what
    [GetImg] returns, the other entries being kept. *)
Theorem loadIfNotInImageCache_idempotent (name filename filename' : string)
    (g : Globals) :
  (is_Some (ImageCache g !! name) ->
     loadIfNotInImageCache name filename g = g) /\
  loadIfNotInImageCache name filename' (loadIfNotInImageCache name filename g) =
    loadIfNotInImageCache name filename g /\
  (ImageCache g !! name = None ->
     ImageCache (loadIfNotInImageCache name filename g) =
       <[name := (GetImg filename false g).1]> (ImageCache g)) /\
  (forall other, other <> name ->
     ImageCache (loadIfNotInImageCache name filename g) !! other =
       ImageCache g !! other).
Proof.
  split; [apply loadIfNotInImageCache_present|].
  split; [apply loadIfNotInImageCache_present, loadIfNotInImageCache_entry|].
  split; [apply loadIfNotInImageCache_absent|].
  intros other Hne.
  destruct (ImageCache g !! name) as [v|] eqn:Hv.
  - rewrite loadIfNotInImageCache_present by eauto. reflexivity.
  - rewrite loadIfNotInImageCache_absent by assumption.
    apply lookup_insert_ne. congruence.
Qed.

Lemma GetImg_missing (imgname : string) (image : bool) (g : Globals) :
  (forall folder, folder ∈ SpritesFolders g ->
     os_path.join folder imgname ∉ files g) ->
  base_path imgname ∉ files g ->
  (GetImg imgname image g).1 = None /\
  trace (GetImg imgname image g).2 =
    trace g ++
    map (fun folder => isfile (os_path.join folder imgname)) (rev (SpritesFolders g)) ++
    [isfile (base_path imgname); print (warning imgname)].
Proof.
  intros Hfolders Hbase. unfold GetImg.
  rewrite GetImg_search_missing.
  2:{ intros f Hf. apply Hfolders. apply list_elem_of_In.
      apply (proj2 (in_rev _ _)). apply list_elem_of_In. exact Hf. }
  set (es := map _ _).
  destruct (log_all_trace es g) as (Ht & Hf & _ & _).
  unfold os_path_isfile. cbn [log files].
  rewrite Hf. fold (base_path imgname).
  rewrite bool_decide_eq_false_2 by assumption.
  split; [reflexivity|]. cbn [snd log trace].
  rewrite Ht. rewrite <- !app_assoc. reflexivity.
Qed.

(** C10: when no file for the image exists in an override folder or in
    the base folder, [GetImg] prints the warning and returns [None];
    [loadIfNotInImageCache] stores that [None] under the name; from then
    on every call for that name, with any file name and whatever the disk
    holds by then, leaves the whole state as it is (no probe of the disk);
    and [main()] removes the entry when it runs to its end, that is once
    the outline colour is set; before that it raises [TypeError] and
    resets nothing. *)
Theorem GetImg_missing_is_cached (name filename : string) (g : Globals) :
  (forall folder, folder ∈ SpritesFolders g ->
     os_path.join folder filename ∉ files g) ->
  base_path filename ∉ files g ->
  ImageCache g !! name = None ->
  (forall image,
     (GetImg filename image g).1 = None /\
     trace (GetImg filename image g).2 =
       trace g ++
       map (fun folder => isfile (os_path.join folder filename))
         (rev (SpritesFolders g)) ++
       [isfile (base_path filename); print (warning filename)]) /\
  ImageCache (loadIfNotInImageCache name filename g) !! name = Some None /\
  (forall g' filename',
     ImageCache g' !! name = Some None ->
     loadIfNotInImageCache name filename' g' = g') /\
  (forall g',
     OutlineColor g' <> None ->
     (main g').1 = Py.Ok tt /\ ImageCache (main g').2 !! name = None) /\
  (forall g',
     OutlineColor g' = None -> main g' = (Py.Raise Py.TypeError, g')).
Proof.
  intros Hfolders Hbase Habsent.
  split; [intros image; by apply GetImg_missing|].
  split.
  { rewrite loadIfNotInImageCache_absent by assumption.
    rewrite lookup_insert_eq.
    by destruct (GetImg_missing filename false g Hfolders Hbase) as [-> _]. }
  split.
  { intros g' filename' H. apply loadIfNotInImageCache_present. eauto. }
  split.
  - intros g' Hcolor. unfold main.
    destruct (OutlineColor g'); [|congruence].
    split; [reflexivity|]. cbn [snd ImageCache]. apply lookup_empty.
  - intros g' Hcolor. by apply main_outcome.
Qed.

Lemma GetTile_empty_slot_witness :
  GetTile 3 Sample.globals = GetTile (4 * 0x200 + 64) Sample.globals.
Proof.
  refine (proj1 (GetTile_empty_slot Sample.globals 3 _)). reflexivity.
Defined.

Lemma loadIfNotInImageCache_idempotent_witness :
  loadIfNotInImageCache "goomba" "other.png" Sample.globals = Sample.globals.
Proof.
  refine (proj1 (loadIfNotInImageCache_idempotent "goomba" "other.png"
                  "other.png" Sample.globals) _).
  eexists. reflexivity.
Defined.

Lemma GetImg_missing_is_cached_witness :
  ImageCache (loadIfNotInImageCache "koopa" "koopa.png" Sample.globals) !! "koopa"
    = Some None.
Proof.
  refine (proj1 (proj2 (GetImg_missing_is_cached "koopa" "koopa.png"
                         Sample.globals _ _ _))).
  - intros folder Hf. apply list_elem_of_singleton in Hf. subst folder.
    unfold Sample.globals; cbn [files].
    intros H. apply elem_of_singleton in H. vm_compute in H. discriminate H.
  - unfold Sample.globals; cbn [files].
    intros H. apply elem_of_singleton in H. vm_compute in H. discriminate H.
  - reflexivity.
Defined.

(** ** Zone items *)

Lemma find_zone_absent (h : Heap) (zs : list ref) (zid : Z) (z0 : option ref) :
  (forall r, r ∈ zs -> exists z, zones h !! r = Some z /\ id z <> zid) ->
  find_zone h zs zid z0 = Py.Ok z0.
Proof.
  induction zs as [|r zs IH]; intros Hno; simpl.
  - reflexivity.
  - destruct (Hno r) as (z & Hz & Hid); [by left|].
    rewrite Hz. rewrite (proj2 (Z.eqb_neq _ _) Hid).
    apply IH. intros r' Hr'. apply Hno. by right.
Qed.

(** C7 as stated fails: while the global [Area] has no [zones] (as the
    initial [Area = None]), no zone has the id 99, and [setZoneID]
    returns normally instead of raising. *)
Lemma setZoneID_without_zones_returns :
  no_zone_with_id (Sample.heap None) 99 /\
  (setZoneID 20%positive 99%Z (Sample.heap None)).1 = Py.Ok tt.
Proof.
  split; [|reflexivity]. intros r Hr. inversion Hr.
Qed.

(** C7, amended: when no zone of the area's collection has the id,
    [setZoneID] raises [ValueError] if [Area] has a zone collection, and
    returns without raising if [Area] has no [zones] attribute; in both
    cases the heap is left as it was, so the item keeps its parent link
    and stays in its old parent's aux set. *)
Theorem setZoneID_unknown_id (self : ref) (zid : Z) (h : Heap) :
  no_zone_with_id h zid ->
  (setZoneID self zid h).1 =
    match Area_zones h with
    | Some _ => Py.Raise Py.ValueError
    | None => Py.Ok tt
    end /\
  (setZoneID self zid h).2 = h /\
  (forall item, zone_items h !! self = Some item ->
     AuxiliaryZoneItem.parent <$> zone_items (setZoneID self zid h).2 !! self =
       Some (AuxiliaryZoneItem.parent item) /\
     forall p zone, AuxiliaryZoneItem.parent item = Some p ->
       zones h !! p = Some zone ->
       aux <$> zones (setZoneID self zid h).2 !! p = Some (aux zone)).
Proof.
  intros Hno. unfold no_zone_with_id in Hno.
  assert (Heq : setZoneID self zid h =
                (match Area_zones h with
                 | Some _ => Py.Raise Py.ValueError
                 | None => Py.Ok tt
                 end, h)).
  { unfold setZoneID. destruct (Area_zones h) as [zs|]; [|reflexivity].
    simpl in Hno. rewrite find_zone_absent by assumption. reflexivity. }
  rewrite Heq. cbn [fst snd]. split; [reflexivity|]. split; [reflexivity|].
  intros item Hitem. rewrite Hitem. split; [reflexivity|].
  intros p zone _ Hzone. rewrite Hzone. reflexivity.
Qed.

Lemma setZoneID_unknown_id_witness :
  (setZoneID 20%positive 99%Z (Sample.heap (Some [10; 11]%positive))).1 =
    Py.Raise Py.ValueError /\
  (setZoneID 20%positive 99%Z (Sample.heap (Some [10; 11]%positive))).2 =
    Sample.heap (Some [10; 11]%positive).
Proof.
  destruct (setZoneID_unknown_id 20%positive 99%Z
              (Sample.heap (Some [10; 11]%positive))) as (H1 & H2 & _).
  - intros r Hr. simpl in Hr. apply elem_of_cons in Hr as [->|Hr].
    + eexists. split; [reflexivity | discriminate].
    + apply list_elem_of_singleton in Hr as ->.
      eexists. split; [reflexivity | discriminate].
  - split; [exact H1 | exact H2].
Defined.

(** Re-parenting to an existing zone: the item leaves the aux set of zone
    10 and joins that of zone 11. *)
Example setZoneID_reparents :
  let '(outcome, h) := setZoneID 20%positive 2%Z (Sample.heap (Some [10; 11]%positive)) in
  outcome = Py.Ok tt /\
  AuxiliaryZoneItem.parent <$> zone_items h !! 20%positive = Some (Some 11%positive) /\
  aux <$> zones h !! 10%positive = Some ∅ /\
  aux <$> zones h !! 11%positive = Some {[ 20%positive ]}.
Proof. vm_compute. repeat split. Qed.

(** ** Images that follow a rectangle *)

Section FollowsRect.

Import AuxiliaryImage_FollowsRect.

Lemma move_resize_fields (self : t) (w h : Q) :
  parent (move_resize self w h) = parent self /\
  in_scene (move_resize self w h) = in_scene self /\
  BoundingRect (move_resize self w h) = BoundingRect self /\
  pos (move_resize self w h) = pos self /\
  alignment (move_resize self w h) = alignment self /\
  realwidth (move_resize self w h) = realwidth self /\
  realheight (move_resize self w h) = realheight self /\
  realimage (move_resize self w h) = realimage self.
Proof.
  unfold move_resize.
  destruct (Py.Qltb w (realwidth self)), (Py.Qltb h (realheight self));
    repeat split.
Qed.

(** The size [move] settles on is the smaller of the real size and the
    room available. *)
Lemma move_resize_size (self : t) (w h : Q) :
  width (move_resize self w h) =
    (if Py.Qltb w (realwidth self) then w else realwidth self) /\
  height (move_resize self w h) =
    (if Py.Qltb h (realheight self) then h else realheight self).
Proof.
  unfold move_resize.
  destruct (Py.Qltb w (realwidth self)), (Py.Qltb h (realheight self));
    split; reflexivity.
Qed.

Lemma move_resize_idempotent (self : t) (w h : Q) :
  move_resize (move_resize self w h) w h = move_resize self w h.
Proof.
  unfold move_resize.
  destruct (Py.Qltb w (realwidth self)) eqn:Ew,
           (Py.Qltb h (realheight self)) eqn:Eh;
    cbn [with_size_image realwidth realheight realimage image];
    rewrite ?Ew, ?Eh;
    destruct (realimage self); reflexivity.
Qed.

Lemma move_resize_with_pos (self : t) (w h a b : Q) :
  move_resize (with_pos self a b) w h = with_pos (move_resize self w h) a b.
Proof.
  unfold move_resize.
  destruct (Py.Qltb w (realwidth self)) eqn:Ew,
           (Py.Qltb h (realheight self)) eqn:Eh;
    cbn [with_pos realwidth realheight realimage image];
    rewrite ?Ew, ?Eh; reflexivity.
Qed.

Lemma move_absolute_with_pos (self : t) (x y w h a b : Q) :
  move_absolute (with_pos self a b) x y w h = move_absolute self x y w h.
Proof. reflexivity. Qed.

(** What [move] does, by cases on the parent and on the position it
    computes. *)
Lemma move_cases (self : t) (x y w h : Q) :
  match move_target self x y w h with
  | None => move self x y w h = (move_resize self w h, [])
  | Some (newx, newy) =>
      if (Qeq_bool newx (pos self).1 && Qeq_bool newy (pos self).2)%bool
      then move self x y w h = (move_resize self w h, [])
      else exists px py,
        parent self = alive px py /\
        move self x y w h =
          (with_pos (move_resize self w h) newx newy,
           setPos newx newy ::
           if in_scene self
           then [scene_update ((pos self).1 + px) ((pos self).2 + py)
                   (width (move_resize self w h)) (height (move_resize self w h))]
           else [])
  end.
Proof.
  unfold move_target, move.
  destruct (move_resize_fields self w h) as (Hp & Hs & _ & _).
  destruct (pos self) as [oldx oldy]. cbn [fst snd].
  destruct (move_absolute (move_resize self w h) x y w h) as [newx newy].
  rewrite Hp, Hs. destruct (parent self) as [px py|]; [|reflexivity].
  destruct (Qeq_bool (newx - px) oldx && Qeq_bool (newy - py) oldy)%bool;
    [reflexivity|].
  exists px, py. split; reflexivity.
Qed.

(** Repeating a [move] with the same arguments changes nothing and
    issues no scene event. *)
Lemma move_twice (self : t) (x y w h : Q) :
  move (move self x y w h).1 x y w h = ((move self x y w h).1, []).
Proof.
  assert (Hstay : forall s,
    move_resize s w h = s ->
    match move_target s x y w h with
    | None => True
    | Some (newx, newy) =>
        (Qeq_bool newx (pos s).1 && Qeq_bool newy (pos s).2)%bool = true
    end ->
    move s x y w h = (s, [])).
  { intros s Hs Ht. pose proof (move_cases s x y w h) as Hc.
    destruct (move_target s x y w h) as [[newx newy]|].
    - rewrite Ht in Hc. rewrite Hc, Hs. reflexivity.
    - rewrite Hc, Hs. reflexivity. }
  pose proof (move_cases self x y w h) as Hc.
  destruct (move_target self x y w h) as [[newx newy]|] eqn:Ht.
  - destruct (Qeq_bool newx (pos self).1 && Qeq_bool newy (pos self).2)%bool eqn:E.
    + rewrite Hc. cbn [fst]. apply Hstay; [apply move_resize_idempotent|].
      unfold move_target in *. rewrite move_resize_idempotent.
      destruct (move_resize_fields self w h) as (_ & _ & _ & Hpos & _).
      destruct (move_absolute _ x y w h), (parent (move_resize self w h));
        [|discriminate].
      injection Ht as <- <-. rewrite Hpos. exact E.
    + destruct Hc as (px & py & Hp & ->). cbn [fst].
      apply Hstay.
      * rewrite move_resize_with_pos, move_resize_idempotent. reflexivity.
      * unfold move_target in *.
        rewrite move_resize_with_pos, move_resize_idempotent.
        rewrite move_absolute_with_pos. cbn [parent with_pos pos fst snd].
        destruct (move_absolute _ x y w h), (parent (move_resize self w h));
          [|discriminate].
        injection Ht as <- <-. rewrite !Qeq_bool_refl. reflexivity.
  - rewrite Hc. cbn [fst]. apply Hstay; [apply move_resize_idempotent|].
    unfold move_target in *. rewrite move_resize_idempotent.
    destruct (move_absolute _ x y w h), (parent (move_resize self w h));
      [discriminate | exact I].
Qed.

(** Outside the real view the item paints nothing. *)
Lemma paint_without_real_view (self : t) (option : option Qt.QRectF) :
  paint self false option = (self, []).
Proof. reflexivity. Qed.

End FollowsRect.

(** C5 as stated fails: a 10 by 10 item at the origin of its parent,
    asked to follow the 5 by 5 rectangle at the origin, computes the
    position it already has, issues no scene event, and yet its width
    and height are changed from 10 to 5. *)
Lemma move_same_position_resizes :
  AuxiliaryImage_FollowsRect.move_target Sample.follower 0 0 5 5 =
    Some (AuxiliaryImage_FollowsRect.pos Sample.follower) /\
  (AuxiliaryImage_FollowsRect.move Sample.follower 0 0 5 5).2 = [] /\
  AuxiliaryImage_FollowsRect.width Sample.follower = 10 /\
  AuxiliaryImage_FollowsRect.height Sample.follower = 10 /\
  AuxiliaryImage_FollowsRect.width
    (AuxiliaryImage_FollowsRect.move Sample.follower 0 0 5 5).1 = 5 /\
  AuxiliaryImage_FollowsRect.height
    (AuxiliaryImage_FollowsRect.move Sample.follower 0 0 5 5).1 = 5 /\
  (AuxiliaryImage_FollowsRect.move Sample.follower 0 0 5 5).1 <> Sample.follower.
Proof.
  repeat split. intros H.
  apply (f_equal AuxiliaryImage_FollowsRect.width) in H.
  vm_compute in H. discriminate H.
Qed.

(** C5, amended: when the position [move(x, y, w, h)] computes equals the
    item's current position, [move] issues no scene event (no [setPos], no
    scene update) and leaves the position and the bounding rectangle as
    they are; it still assigns width and height (the smaller of the real
    size and the room available) and the image.  Repeating a [move] with
    the same arguments, whatever the first one did, changes nothing and
    issues no scene event. *)
Theorem move_same_position (self : AuxiliaryImage_FollowsRect.t)
    (x y w h newx newy : Q) :
  AuxiliaryImage_FollowsRect.move_target self x y w h = Some (newx, newy) ->
  newx == (AuxiliaryImage_FollowsRect.pos self).1 ->
  newy == (AuxiliaryImage_FollowsRect.pos self).2 ->
  let self' := (AuxiliaryImage_FollowsRect.move self x y w h).1 in
  (AuxiliaryImage_FollowsRect.move self x y w h).2 = [] /\
  AuxiliaryImage_FollowsRect.pos self' = AuxiliaryImage_FollowsRect.pos self /\
  AuxiliaryImage_FollowsRect.BoundingRect self' =
    AuxiliaryImage_FollowsRect.BoundingRect self /\
  self' = AuxiliaryImage_FollowsRect.move_resize self w h /\
  AuxiliaryImage_FollowsRect.move self' x y w h = (self', []).
Proof.
  intros Ht Hx Hy self'.
  pose proof (move_cases self x y w h) as Hc. rewrite Ht in Hc.
  apply Qeq_bool_iff in Hx, Hy. rewrite Hx, Hy in Hc. cbn [andb] in Hc.
  destruct (move_resize_fields self w h) as (_ & _ & Hbr & Hpos & _).
  subst self'. split; [by rewrite Hc|].
  split; [by rewrite Hc|]. split; [by rewrite Hc|].
  split; [by rewrite Hc|]. apply move_twice.
Qed.

Lemma move_same_position_witness :
  (AuxiliaryImage_FollowsRect.move Sample.follower 0 0 5 5).2 = [] /\
  AuxiliaryImage_FollowsRect.pos
    (AuxiliaryImage_FollowsRect.move Sample.follower 0 0 5 5).1 =
  AuxiliaryImage_FollowsRect.pos Sample.follower.
Proof.
  destruct (move_same_position Sample.follower 0 0 5 5 (0 - 0) (0 - 0))
    as (H1 & H2 & _).
  - reflexivity.
  - reflexivity.
  - reflexivity.
  - split; [exact H1 | exact H2].
Defined.

(** ** Nearest-zone lookup *)

Lemma zone_dist_nonneg (rect : Qt.QRectF) (x y : Q) : 0 <= zone_dist rect x y.
Proof.
  unfold zone_dist, Qt.getCoords. cbv beta iota zeta.
  pose proof (sqr_nonneg (Qt.x rect - x)).
  pose proof (sqr_nonneg (x - (Qt.x rect + Qt.width rect))).
  pose proof (sqr_nonneg (Qt.y rect - y)).
  pose proof (sqr_nonneg (y - (Qt.y rect + Qt.height rect))).
  case_Qltb; lra.
Qed.

Lemma spec_axis_dist2_code (lo hi v : Q) :
  lo <= hi ->
  spec_axis_dist2 lo hi v ==
    (if Py.Qltb v lo then Py.sqr (lo - v)
     else if Py.Qltb hi v then Py.sqr (v - hi) else 0).
Proof.
  intros Hle. unfold spec_axis_dist2, Py.sqr. simpl.
  destruct (Py.Qltb v lo) eqn:E1.
  - apply Qltb_lt in E1.
    destruct (Qle_bool lo v) eqn:E2; [apply Qle_bool_iff in E2; lra|]. simpl.
    apply Q.min_l. nra.
  - apply Qltb_ge in E1. rewrite (proj2 (Qle_bool_iff lo v) E1). simpl.
    destruct (Py.Qltb hi v) eqn:E3.
    + apply Qltb_lt in E3.
      destruct (Qle_bool v hi) eqn:E4; [apply Qle_bool_iff in E4; lra|].
      apply Q.min_r. nra.
    + apply Qltb_ge in E3. rewrite (proj2 (Qle_bool_iff v hi) E3). reflexivity.
Qed.

(** On a rectangle of non-negative extent the distance the loop computes
    is the one the specification describes. *)
Lemma zone_dist_spec (rect : Qt.QRectF) (x y : Q) :
  0 <= Qt.width rect -> 0 <= Qt.height rect ->
  zone_dist rect x y == spec_edge_dist2 rect x y.
Proof.
  intros Hw Hh. unfold spec_edge_dist2.
  rewrite !spec_axis_dist2_code by lra.
  unfold zone_dist, Qt.getCoords. cbv beta iota zeta.
  case_Qltb; lra.
Qed.

(** The contribution of one axis, as the loop computes it. *)
Lemma zone_dist_axes (rect : Qt.QRectF) (x y : Q) :
  zone_dist rect x y ==
    (if Py.Qltb x (Qt.x rect) then Py.sqr (Qt.x rect - x)
     else if Py.Qltb (Qt.x rect + Qt.width rect) x
          then Py.sqr (x - (Qt.x rect + Qt.width rect)) else 0) +
    (if Py.Qltb y (Qt.y rect) then Py.sqr (Qt.y rect - y)
     else if Py.Qltb (Qt.y rect + Qt.height rect) y
          then Py.sqr (y - (Qt.y rect + Qt.height rect)) else 0).
Proof.
  unfold zone_dist, Qt.getCoords. cbv beta iota zeta.
  case_Qltb; lra.
Qed.

Lemma axis_dist_least (lo hi v p : Q) :
  lo <= p <= hi ->
  (if Py.Qltb v lo then Py.sqr (lo - v)
   else if Py.Qltb hi v then Py.sqr (v - hi) else 0) <= Py.sqr (p - v).
Proof.
  intros Hp. unfold Py.sqr. simpl. case_Qltb.
  - assert (0 <= (p - lo) * (p + lo - 2 * v)) by (apply Qmult_le_0_compat; lra).
    lra.
  - assert (0 <= (hi - p) * (2 * v - hi - p)) by (apply Qmult_le_0_compat; lra).
    lra.
  - exact (sqr_nonneg (p - v)).
Qed.

(** It is the least squared Euclidean distance from the point to a point
    of the rectangle: a lower bound, attained. *)
Lemma zone_dist_least (rect : Qt.QRectF) (x y px py : Q) :
  Qt.x rect <= px <= Qt.x rect + Qt.width rect ->
  Qt.y rect <= py <= Qt.y rect + Qt.height rect ->
  zone_dist rect x y <= Py.sqr (px - x) + Py.sqr (py - y).
Proof.
  intros Hx Hy. rewrite zone_dist_axes.
  pose proof (axis_dist_least _ _ x px Hx).
  pose proof (axis_dist_least _ _ y py Hy). lra.
Qed.

Lemma zone_dist_attained (rect : Qt.QRectF) (x y : Q) :
  0 <= Qt.width rect -> 0 <= Qt.height rect ->
  exists px py,
    Qt.x rect <= px <= Qt.x rect + Qt.width rect /\
    Qt.y rect <= py <= Qt.y rect + Qt.height rect /\
    zone_dist rect x y == Py.sqr (px - x) + Py.sqr (py - y).
Proof.
  intros Hw Hh. unfold zone_dist, Qt.getCoords, Py.sqr. simpl.
  set (l := Qt.x rect). set (r := l + Qt.width rect).
  set (t := Qt.y rect). set (b := t + Qt.height rect).
  exists (if Py.Qltb x l then l else if Py.Qltb r x then r else x),
         (if Py.Qltb y t then t else if Py.Qltb b y then b else y).
  subst l r t b.
  case_Qltb; repeat split; try lra; ring.
Qed.

Section NearestZone.

Variables x y : Q.

(** The zone does not contain the point, and its distance to it. *)
Let outside (zone : Zone) : Prop := Qt.contains (ZoneRect zone) x y = false.
Let dist (zone : Zone) : Q := zone_dist (ZoneRect zone) x y.

(** The loop stops at the first zone containing the point. *)
Lemma loop_first_containing (pre post : list Zone) (zone : Zone) :
  forall (i : Z) (minimumdist : Q) (match_index : Z),
  Forall outside pre ->
  Qt.contains (ZoneRect zone) x y = true ->
  MapPositionToZoneID_loop (pre ++ zone :: post) i x y minimumdist match_index =
    (i + Z.of_nat (length pre))%Z.
Proof.
  induction pre as [|z pre IH]; intros i md mi Hpre Hin; simpl.
  - rewrite Hin. lia.
  - inversion Hpre as [|? ? Hz Hpre']; subst. unfold outside in Hz. rewrite Hz.
    destruct (_ || _)%bool; rewrite IH by assumption; lia.
Qed.

(** With no zone containing the point and a distance already recorded,
    the loop keeps the recorded index unless a strictly nearer zone
    follows, and then returns the first of the nearest ones. *)
Lemma loop_nearest (zs : list Zone) :
  forall (i : Z) (minimumdist : Q) (match_index : Z),
  Forall outside zs ->
  0 <= minimumdist ->
  let r := MapPositionToZoneID_loop zs i x y minimumdist match_index in
  (r = match_index /\ forall zone, zone ∈ zs -> minimumdist <= dist zone) \/
  (exists (k : nat) (zk : Zone),
     r = (i + Z.of_nat k)%Z /\ zs !! k = Some zk /\
     dist zk < minimumdist /\
     (forall j zj, zs !! j = Some zj -> dist zk <= dist zj) /\
     (forall j zj, (j < k)%nat -> zs !! j = Some zj -> dist zk < dist zj)).
Proof.
  induction zs as [|z zs IH]; intros i md mi Hout Hmd; simpl.
  - left. split; [reflexivity|]. intros zone Hz. inversion Hz.
  - inversion Hout as [|? ? Hz Hout']; subst. unfold outside in Hz. rewrite Hz.
    assert (Hsent : Qeq_bool md (-1) = false).
    { destruct (Qeq_bool md (-1)) eqn:E; [|reflexivity].
      apply Qeq_bool_iff in E. lra. }
    rewrite Hsent, orb_false_r. fold (dist z).
    pose proof (zone_dist_nonneg (ZoneRect z) x y) as Hnn. fold (dist z) in Hnn.
    destruct (Py.Qltb (dist z) md) eqn:E.
    + apply Qltb_lt in E. right.
      destruct (IH (i + 1)%Z (dist z) i Hout' Hnn)
        as [[-> Hall] | (k & zk & -> & Hk & Hlt & Hmin & Hfirst)].
      * exists 0%nat, z. split; [lia|]. split; [reflexivity|]. split; [exact E|].
        split.
        -- intros [|j] zj Hj; simpl in Hj.
           ++ injection Hj as <-. lra.
           ++ apply Hall. eapply list_elem_of_lookup_2. exact Hj.
        -- intros j zj Hj. lia.
      * exists (S k), zk. split; [lia|]. split; [exact Hk|]. split; [lra|].
        split.
        -- intros [|j] zj Hj; simpl in Hj.
           ++ injection Hj as <-. lra.
           ++ eapply Hmin. exact Hj.
        -- intros [|j] zj Hlt' Hj; simpl in Hj.
           ++ injection Hj as <-. exact Hlt.
           ++ eapply Hfirst; [|exact Hj]. lia.
    + apply Qltb_ge in E.
      destruct (IH (i + 1)%Z md mi Hout' Hmd)
        as [[-> Hall] | (k & zk & -> & Hk & Hlt & Hmin & Hfirst)].
      * left. split; [reflexivity|]. intros zone Hin.
        apply elem_of_cons in Hin as [->|Hin]; [exact E | by apply Hall].
      * right. exists (S k), zk. split; [lia|]. split; [exact Hk|].
        split; [exact Hlt|]. split.
        -- intros [|j] zj Hj; simpl in Hj.
           ++ injection Hj as <-. lra.
           ++ eapply Hmin. exact Hj.
        -- intros [|j] zj Hlt' Hj; simpl in Hj.
           ++ injection Hj as <-. lra.
           ++ eapply Hfirst; [|exact Hj]. lia.
Qed.

(** Either no zone contains the point, or there is a first one that
    does. *)
Lemma first_containing (zs : list Zone) :
  Forall outside zs \/
  exists pre zone post,
    zs = pre ++ zone :: post /\ Forall outside pre /\
    Qt.contains (ZoneRect zone) x y = true.
Proof.
  induction zs as [|z zs IH].
  - left. constructor.
  - destruct (Qt.contains (ZoneRect z) x y) eqn:E.
    + right. exists [], z, zs. repeat split; [constructor | exact E].
    + destruct IH as [IH | (pre & zone & post & -> & Hpre & Hin)].
      * left. constructor; assumption.
      * right. exists (z :: pre), zone, post.
        repeat split; [constructor; assumption | exact Hin].
Qed.

(** The whole loop, when no zone contains the point. *)
Lemma loop_all_outside (zs : list Zone) :
  Forall outside zs -> zs <> [] ->
  exists (k : nat) (zk : Zone),
    MapPositionToZoneID_loop zs 0 x y (-1) (-1) = Z.of_nat k /\
    zs !! k = Some zk /\
    (forall j zj, zs !! j = Some zj -> dist zk <= dist zj) /\
    (forall j zj, (j < k)%nat -> zs !! j = Some zj -> dist zk < dist zj).
Proof.
  intros Hout Hne. destruct zs as [|z zs]; [congruence|]. simpl.
  inversion Hout as [|? ? Hz Hout']; subst. unfold outside in Hz. rewrite Hz.
  change (Qeq_bool (-1) (-1)) with true. rewrite orb_true_r. fold (dist z).
  pose proof (zone_dist_nonneg (ZoneRect z) x y) as Hnn. fold (dist z) in Hnn.
  destruct (loop_nearest zs (0 + 1)%Z (dist z) 0%Z Hout' Hnn)
    as [[-> Hall] | (k & zk & -> & Hk & Hlt & Hmin & Hfirst)].
  - exists 0%nat, z. split; [reflexivity|]. split; [reflexivity|]. split.
    + intros [|j] zj Hj; simpl in Hj.
      * injection Hj as <-. lra.
      * apply Hall. eapply list_elem_of_lookup_2. exact Hj.
    + intros j zj Hj. lia.
  - exists (S k), zk. split; [lia|]. split; [exact Hk|]. split.
    + intros [|j] zj Hj; simpl in Hj.
      * injection Hj as <-. lra.
      * eapply Hmin. exact Hj.
    + intros [|j] zj Hlt' Hj; simpl in Hj.
      * injection Hj as <-. exact Hlt.
      * eapply Hfirst; [|exact Hj]. lia.
Qed.

Lemma MapPositionToZoneID_index (zs : list Zone) (k : nat) :
  MapPositionToZoneID_loop zs 0 x y (-1) (-1) = Z.of_nat k ->
  MapPositionToZoneID zs x y false = Py.Ok (Z.of_nat k).
Proof.
  intros H. unfold MapPositionToZoneID. rewrite H.
  destruct (Z.of_nat k =? -1)%Z eqn:E; [|reflexivity].
  apply Z.eqb_eq in E. lia.
Qed.

End NearestZone.

(** C3: [MapPositionToZoneID] returns the index of the first zone whose
    rectangle contains the point, whatever zones follow it; when no zone
    contains the point it returns the index of a zone at the least
    squared distance, the first of them (every earlier zone is strictly
    farther); and it returns -1 exactly when there is no zone.  The
    distance is, for a rectangle of non-negative extent, the sum over the
    two axes of nothing when the point is within the span and of the
    squared distance to the nearer edge otherwise. *)
Theorem MapPositionToZoneID_nearest (x y : Q) :
  (forall (pre post : list Zone) (zone : Zone),
     Forall (fun z => Qt.contains (ZoneRect z) x y = false) pre ->
     Qt.contains (ZoneRect zone) x y = true ->
     MapPositionToZoneID (pre ++ zone :: post) x y false =
       Py.Ok (Z.of_nat (length pre))) /\
  (forall zones : list Zone,
     zones <> [] ->
     Forall (fun z => Qt.contains (ZoneRect z) x y = false) zones ->
     exists (k : nat) (zk : Zone),
       MapPositionToZoneID zones x y false = Py.Ok (Z.of_nat k) /\
       zones !! k = Some zk /\
       (forall j zj, zones !! j = Some zj ->
          zone_dist (ZoneRect zk) x y <= zone_dist (ZoneRect zj) x y) /\
       (forall j zj, (j < k)%nat -> zones !! j = Some zj ->
          zone_dist (ZoneRect zk) x y < zone_dist (ZoneRect zj) x y)) /\
  (forall zones : list Zone,
     MapPositionToZoneID zones x y false = Py.Ok (-1)%Z <-> zones = []) /\
  (forall rect : Qt.QRectF,
     0 <= Qt.width rect -> 0 <= Qt.height rect ->
     zone_dist rect x y == spec_edge_dist2 rect x y).
Proof.
  assert (Hfirst : forall (pre post : list Zone) (zone : Zone),
     Forall (fun z => Qt.contains (ZoneRect z) x y = false) pre ->
     Qt.contains (ZoneRect zone) x y = true ->
     MapPositionToZoneID (pre ++ zone :: post) x y false =
       Py.Ok (Z.of_nat (length pre))).
  { intros pre post zone Hpre Hin. apply MapPositionToZoneID_index.
    rewrite (loop_first_containing x y pre post zone) by assumption. lia. }
  assert (Hnear : forall zones : list Zone,
     zones <> [] ->
     Forall (fun z => Qt.contains (ZoneRect z) x y = false) zones ->
     exists (k : nat) (zk : Zone),
       MapPositionToZoneID zones x y false = Py.Ok (Z.of_nat k) /\
       zones !! k = Some zk /\
       (forall j zj, zones !! j = Some zj ->
          zone_dist (ZoneRect zk) x y <= zone_dist (ZoneRect zj) x y) /\
       (forall j zj, (j < k)%nat -> zones !! j = Some zj ->
          zone_dist (ZoneRect zk) x y < zone_dist (ZoneRect zj) x y)).
  { intros zones Hne Hout.
    destruct (loop_all_outside x y zones Hout Hne) as (k & zk & Hr & Hk & Hmin & Hlt).
    exists k, zk. split; [by apply MapPositionToZoneID_index|].
    split; [exact Hk|]. split; assumption. }
  split; [exact Hfirst|]. split; [exact Hnear|].
  split; [|intros rect; apply zone_dist_spec].
  intros zones. split.
  - intros Hres. destruct zones as [|z zs]; [reflexivity|]. exfalso.
    destruct (first_containing x y (z :: zs))
      as [Hout | (pre & zone & post & Heq & Hpre & Hin)].
    + destruct (Hnear (z :: zs) ltac:(discriminate) Hout) as (k & _ & Hk & _).
      rewrite Hk in Hres. injection Hres as Hres. lia.
    + rewrite Heq, (Hfirst pre post zone Hpre Hin) in Hres.
      injection Hres as Hres. lia.
  - intros ->. reflexivity.
Qed.

Lemma MapPositionToZoneID_nearest_witness :
  exists (k : nat) (zk : Zone),
    MapPositionToZoneID Sample.three_zones 58 8 false = Py.Ok (Z.of_nat k) /\
    Sample.three_zones !! k = Some zk /\
    (forall j zj, Sample.three_zones !! j = Some zj ->
       zone_dist (ZoneRect zk) 58 8 <= zone_dist (ZoneRect zj) 58 8) /\
    (forall j zj, (j < k)%nat -> Sample.three_zones !! j = Some zj ->
       zone_dist (ZoneRect zk) 58 8 < zone_dist (ZoneRect zj) 58 8).
Proof.
  refine (proj1 (proj2 (MapPositionToZoneID_nearest 58 8)) Sample.three_zones _ _).
  - discriminate.
  - repeat constructor.
Defined.

(** The point (58, 8) is 42 away from the first zone and 42 away from
    the second: the first one is returned.  The point (108, 8) is inside
    the second zone. *)
Example MapPositionToZoneID_tie :
  MapPositionToZoneID Sample.three_zones 58 8 false = Py.Ok 0%Z /\
  zone_dist (ZoneRect (Sample.zone 1 0 0 16 16 ∅)) 58 8 == 1764 /\
  zone_dist (ZoneRect (Sample.zone 2 100 0 16 16 ∅)) 58 8 == 1764.
Proof. repeat split. Qed.

Example MapPositionToZoneID_inside :
  MapPositionToZoneID Sample.three_zones 108 8 false = Py.Ok 1%Z /\
  MapPositionToZoneID Sample.three_zones 108 8 true = Py.Ok 2%Z /\
  MapPositionToZoneID [] 108 8 false = Py.Ok (-1)%Z.
Proof. repeat split. Qed.

(** * Further properties *)

(** ** Looking up image files *)

(** The search stops at the first folder holding the file. *)
Lemma GetImg_search_found (before after : list string) (folder imgname path : string)
    (g : Globals) :
  (forall f, f ∈ before -> os_path.join f imgname ∉ files g) ->
  os_path.join folder imgname ∈ files g ->
  GetImg_search (before ++ folder :: after) imgname path g =
    (os_path.join folder imgname,
     foldl (fun g e => log e g) g
       (map (fun f => isfile (os_path.join f imgname)) (before ++ [folder]))).
Proof.
  revert g. induction before as [|f before IH]; intros g Hno Hin; simpl.
  - rewrite bool_decide_eq_true_2 by assumption. reflexivity.
  - rewrite bool_decide_eq_false_2 by (apply Hno; left).
    apply IH; [|exact Hin]. intros f' Hf'. simpl. apply Hno. by right.
Qed.

(** Either no folder holds the file, or there is a last one that does. *)
Lemma last_folder_with_file (folders : list string) (imgname : string)
    (disk : gset string) :
  (forall f, f ∈ folders -> os_path.join f imgname ∉ disk) \/
  exists pre folder post,
    folders = pre ++ folder :: post /\
    os_path.join folder imgname ∈ disk /\
    forall f, f ∈ post -> os_path.join f imgname ∉ disk.
Proof.
  induction folders as [|f folders IH].
  - left. intros f Hf. inversion Hf.
  - destruct IH as [Hno | (pre & folder & post & -> & Hin & Hpost)].
    + destruct (decide (os_path.join f imgname ∈ disk)) as [Hf|Hf].
      * right. exists [], f, folders. repeat split; assumption.
      * left. intros f' Hf'. apply elem_of_cons in Hf' as [->|Hf']; auto.
    + right. exists (f :: pre), folder, post. repeat split; assumption.
Qed.

Lemma in_rev_elem (f : string) (l : list string) : f ∈ rev l <-> f ∈ l.
Proof. rewrite !list_elem_of_In. symmetry. apply in_rev. Qed.

(** What [GetImg] does when some override folder holds the file. *)
Lemma GetImg_found (imgname : string) (image : bool) (g : Globals)
    (pre post : list string) (folder : string) :
  SpritesFolders g = pre ++ folder :: post ->
  os_path.join folder imgname ∈ files g ->
  (forall f, f ∈ post -> os_path.join f imgname ∉ files g) ->
  let path := os_path.join folder imgname in
  (GetImg imgname image g).1 =
    Some (if image then Qt.QImage path else Qt.QPixmap path) /\
  trace (GetImg imgname image g).2 =
    trace g ++
    map (fun f => isfile (os_path.join f imgname)) (rev post) ++
    [isfile path; isfile path; decode path].
Proof.
  intros Hfolders Hin Hpost path. unfold GetImg.
  rewrite Hfolders, rev_app_distr. simpl rev. rewrite <- app_assoc. simpl app.
  rewrite (GetImg_search_found (rev post) (rev pre) folder); [|
    intros f Hf; apply Hpost; by apply in_rev_elem | exact Hin].
  set (es := map _ (rev post ++ [folder])).
  destruct (log_all_trace es g) as (Ht & Hf & _ & _).
  unfold os_path_isfile. cbn [log files]. rewrite Hf.
  rewrite bool_decide_eq_true_2 by assumption.
  assert (Hes : es = map (fun f => isfile (os_path.join f imgname)) (rev post)
                       ++ [isfile path]).
  { subst es. rewrite map_app. reflexivity. }
  destruct image; (split; [reflexivity|]); cbn [snd log trace];
    rewrite Ht, Hes, <- !app_assoc; reflexivity.
Qed.

(** X1: [GetImg] takes the file from the override folder added last among
    those that hold it: folders added later are probed first and found
    empty, the file is probed once more, decoded as a [QPixmap] (a
    [QImage] when [image] is set), and no warning is printed. *)
Theorem GetImg_most_recent_folder (imgname : string) (image : bool) (g : Globals)
    (pre post : list string) (folder : string) :
  SpritesFolders g = pre ++ folder :: post ->
  os_path.join folder imgname ∈ files g ->
  (forall f, f ∈ post -> os_path.join f imgname ∉ files g) ->
  let path := os_path.join folder imgname in
  (GetImg imgname image g).1 =
    Some (if image then Qt.QImage path else Qt.QPixmap path) /\
  trace (GetImg imgname image g).2 =
    trace g ++
    map (fun f => isfile (os_path.join f imgname)) (rev post) ++
    [isfile path; isfile path; decode path].
Proof. apply GetImg_found. Qed.

Lemma GetImg_most_recent_folder_witness :
  (GetImg "goomba.png" false
     (mkGlobals None None None ∅ ∅ ∅ ["a"; "b"; "c"] false
        {[ "a/goomba.png"; "b/goomba.png" ]} [])).1 =
    Some (Qt.QPixmap "b/goomba.png").
Proof.
  refine (proj1 (GetImg_most_recent_folder "goomba.png" false
                   (mkGlobals None None None ∅ ∅ ∅ ["a"; "b"; "c"] false
                      {[ "a/goomba.png"; "b/goomba.png" ]} [])
                   ["a"] ["c"] "b" _ _ _)).
  - reflexivity.
  - cbn [files]. apply elem_of_union_r, elem_of_singleton. reflexivity.
  - intros f Hf. apply list_elem_of_singleton in Hf as ->. cbn [files].
    intros H. apply elem_of_union in H as [H|H];
      apply elem_of_singleton in H; vm_compute in H; discriminate H.
Defined.

(** X2: [GetImg] returns [None] exactly when the file is neither in an
    override folder nor in the base folder [reggiedata/sprites]; when no
    override folder holds it and the base folder does, the base file is
    decoded. *)
Theorem GetImg_None_iff (imgname : string) (image : bool) (g : Globals) :
  ((GetImg imgname image g).1 = None <->
   (forall f, f ∈ SpritesFolders g -> os_path.join f imgname ∉ files g) /\
   base_path imgname ∉ files g) /\
  ((forall f, f ∈ SpritesFolders g -> os_path.join f imgname ∉ files g) ->
   base_path imgname ∈ files g ->
   (GetImg imgname image g).1 =
     Some (if image then Qt.QImage (base_path imgname)
           else Qt.QPixmap (base_path imgname))).
Proof.
  assert (Hbase :
    (forall f, f ∈ SpritesFolders g -> os_path.join f imgname ∉ files g) ->
    base_path imgname ∈ files g ->
    (GetImg imgname image g).1 =
      Some (if image then Qt.QImage (base_path imgname)
            else Qt.QPixmap (base_path imgname))).
  { intros Hno Hin. unfold GetImg.
    rewrite GetImg_search_missing by (intros f Hf; apply Hno; by apply in_rev_elem).
    set (es := map _ _).
    destruct (log_all_trace es g) as (_ & Hf & _ & _).
    unfold os_path_isfile. cbn [log files]. rewrite Hf.
    fold (base_path imgname). rewrite bool_decide_eq_true_2 by assumption.
    destruct image; reflexivity. }
  split; [|exact Hbase]. split.
  - intros Hnone.
    destruct (last_folder_with_file (SpritesFolders g) imgname (files g))
      as [Hno | (pre & folder & post & Heq & Hin & Hpost)].
    + split; [exact Hno|]. intros Hin. rewrite (Hbase Hno Hin) in Hnone.
      discriminate Hnone.
    + destruct (GetImg_found imgname image g pre post folder
                  Heq Hin Hpost) as [Hsome _].
      rewrite Hsome in Hnone. discriminate Hnone.
  - intros [Hno Hb]. by apply GetImg_missing.
Qed.

Lemma GetImg_None_iff_witness :
  (GetImg "goomba.png" true Sample.globals).1 =
    Some (Qt.QImage (base_path "goomba.png")).
Proof.
  refine (proj2 (GetImg_None_iff "goomba.png" true Sample.globals) _ _).
  - intros f Hf. apply list_elem_of_singleton in Hf as ->.
    unfold Sample.globals; cbn [files].
    intros H. apply elem_of_singleton in H. vm_compute in H. discriminate H.
  - unfold Sample.globals; cbn [files]. apply elem_of_singleton. reflexivity.
Defined.

(** ** Resetting the module *)

Lemma clear_tiles_idempotent (tiles : gmap Z (option TilesetTile)) :
  clear_tiles (clear_tiles tiles) = clear_tiles tiles.
Proof.
  apply map_eq. intros k. unfold clear_tiles. rewrite !clear_tiles_lookup.
  destruct (decide (k ∈ seqZ 0 256)); reflexivity.
Qed.

(** X3: once the outline colour is set, [main()] returns normally: it
    empties the image cache, the set of loaded sprite images and the list
    of override folders, empties the tile slots 0..255 and leaves every
    other tile slot (the unknown-tile override among them), the outline
    colour and the real-view flag as they were, and calling it again
    changes nothing more.  While the outline colour is [None], [main()]
    raises [TypeError] and resets nothing. *)
Theorem main_resets (g : Globals) :
  (OutlineColor g <> None ->
   (main g).1 = Py.Ok tt /\
   ImageCache (main g).2 = ∅ /\
   SpriteImagesLoaded (main g).2 = ∅ /\
   SpritesFolders (main g).2 = [] /\
   (forall k, (0 <= k < 256)%Z -> Tiles (main g).2 !! k = Some None) /\
   (forall k, ~ (0 <= k < 256)%Z -> Tiles (main g).2 !! k = Tiles g !! k) /\
   Tiles (main g).2 !! unknown_tile = Tiles g !! unknown_tile /\
   OutlineColor (main g).2 = OutlineColor g /\
   RealViewEnabled (main g).2 = RealViewEnabled g /\
   main (main g).2 = (Py.Ok tt, (main g).2)) /\
  (OutlineColor g = None -> main g = (Py.Raise Py.TypeError, g)).
Proof.
  split; [|by apply main_outcome].
  intros Hcolor.
  split; [by apply main_outcome|].
  split; [unfold main; by destruct (OutlineColor g)|].
  split; [unfold main; by destruct (OutlineColor g)|].
  split; [unfold main; by destruct (OutlineColor g)|].
  split; [intros k Hk; rewrite main_Tiles by assumption; by rewrite decide_True|].
  split; [intros k Hk; rewrite main_Tiles by assumption; by rewrite decide_False|].
  split.
  { rewrite main_Tiles by assumption. rewrite decide_False; [reflexivity|].
    apply unknown_tile_outside_table. }
  unfold main. destruct (OutlineColor g) as [color|]; [|congruence].
  cbn [snd OutlineColor Tiles RealViewEnabled files trace].
  rewrite clear_tiles_idempotent. repeat split.
Qed.

(** ** Reading tiles *)

(** X4: after a [main()] that returns (the outline colour being set),
    every tile id in 0..255 resolves to the unknown-tile override:
    [GetTile] returns the override's image when an override tile was
    loaded before, and raises otherwise ([KeyError] when the override
    slot does not exist, [AttributeError] when it holds [None]). *)
Theorem GetTile_after_main (g : Globals) (tile_id : Z) :
  OutlineColor g <> None ->
  (0 <= tile_id < 256)%Z ->
  (main g).1 = Py.Ok tt /\
  GetTile tile_id (main g).2 =
    match Tiles g !! unknown_tile with
    | Some (Some tile) => Py.Ok (main_image tile)
    | Some None => Py.Raise Py.AttributeError
    | None => Py.Raise Py.KeyError
    end.
Proof.
  intros Hcolor Hid. split; [by apply main_outcome|]. unfold GetTile.
  rewrite (main_Tiles g tile_id), decide_True by assumption.
  rewrite (main_Tiles g unknown_tile) by assumption.
  rewrite decide_False by apply unknown_tile_outside_table.
  destruct (Tiles g !! unknown_tile) as [[tile|]|]; reflexivity.
Qed.

Lemma GetTile_after_main_witness :
  (main Sample.coloured_globals).1 = Py.Ok tt /\
  GetTile 7 (main Sample.coloured_globals).2 = Py.Ok (Qt.QPixmap "unknown.png").
Proof.
  destruct (GetTile_after_main Sample.coloured_globals 7) as [H1 H2].
  - discriminate.
  - lia.
  - split; [exact H1 | rewrite H2; reflexivity].
Defined.

(** X5: the outcomes of [GetTile]: an image is returned only as the image
    of the tile in the slot asked for, or of the override tile when that
    slot holds [None]; [KeyError] is raised when the slot does not exist,
    or holds [None] while the override slot does not exist;
    [AttributeError] when the slot and the override slot both hold
    [None]. *)
Theorem GetTile_outcomes (g : Globals) (tile_id : Z) :
  (forall img,
     GetTile tile_id g = Py.Ok img <->
     exists tile, main_image tile = img /\
       (Tiles g !! tile_id = Some (Some tile) \/
        (Tiles g !! tile_id = Some None /\
         Tiles g !! unknown_tile = Some (Some tile)))) /\
  (GetTile tile_id g = Py.Raise Py.KeyError <->
     Tiles g !! tile_id = None \/
     (Tiles g !! tile_id = Some None /\ Tiles g !! unknown_tile = None)) /\
  (GetTile tile_id g = Py.Raise Py.AttributeError <->
     Tiles g !! tile_id = Some None /\ Tiles g !! unknown_tile = Some None).
Proof.
  unfold GetTile.
  destruct (Tiles g !! tile_id) as [[tile|]|] eqn:Eid; simpl;
    [| destruct (Tiles g !! unknown_tile) as [[fallback|]|] eqn:Eun; simpl |];
    (split; [intros img; split;
               [intros H; try discriminate H; injection H as <-; eauto
               |intros (t & <- & [H | [H1 H2]]); congruence]
            |split; split; intros H; try discriminate H; try tauto;
             try (destruct H as [H | [H1 H2]]; congruence);
             try (destruct H as [H1 H2]; congruence); eauto]).
Qed.

(** ** Zone lookup by id *)

Lemma MapPositionToZoneID_loop_in_range (zs : list Zone) (x y : Q) :
  zs <> [] ->
  exists (k : nat) (zone : Zone),
    MapPositionToZoneID_loop zs 0 x y (-1) (-1) = Z.of_nat k /\
    zs !! k = Some zone.
Proof.
  intros Hne.
  destruct (first_containing x y zs)
    as [Hout | (pre & zone & post & -> & Hpre & Hin)].
  - destruct (loop_all_outside x y zs Hout Hne) as (k & zk & Hr & Hk & _).
    exists k, zk. split; assumption.
  - exists (length pre), zone. split.
    + rewrite (loop_first_containing x y pre post zone) by assumption. lia.
    + rewrite lookup_app_r by lia. rewrite Nat.sub_diag. reflexivity.
Qed.

(** X6: on a non-empty zone list [MapPositionToZoneID] never fails: the
    index it returns is a valid index, and with [get_id] set it returns
    the id of the zone at that index; on the empty list it returns -1
    either way. *)
Theorem MapPositionToZoneID_get_id (zones : list Zone) (x y : Q) :
  (zones <> [] ->
   exists (k : nat) (zone : Zone),
     zones !! k = Some zone /\
     MapPositionToZoneID zones x y false = Py.Ok (Z.of_nat k) /\
     MapPositionToZoneID zones x y true = Py.Ok (id zone)) /\
  (zones = [] ->
   MapPositionToZoneID zones x y false = Py.Ok (-1)%Z /\
   MapPositionToZoneID zones x y true = Py.Ok (-1)%Z).
Proof.
  split.
  - intros Hne.
    destruct (MapPositionToZoneID_loop_in_range zones x y Hne) as (k & zone & Hr & Hk).
    exists k, zone. split; [exact Hk|].
    unfold MapPositionToZoneID. rewrite Hr.
    assert (E : (Z.of_nat k =? -1)%Z = false) by (apply Z.eqb_neq; lia).
    rewrite E, Nat2Z.id, Hk. split; reflexivity.
  - intros ->. split; reflexivity.
Qed.

Lemma MapPositionToZoneID_get_id_witness :
  exists (k : nat) (zone : Zone),
    Sample.three_zones !! k = Some zone /\
    MapPositionToZoneID Sample.three_zones 58 8 false = Py.Ok (Z.of_nat k) /\
    MapPositionToZoneID Sample.three_zones 58 8 true = Py.Ok (id zone).
Proof.
  refine (proj1 (MapPositionToZoneID_get_id Sample.three_zones 58 8) _).
  discriminate.
Defined.

Lemma Qeq_bool_false (a b : Q) : ~ a == b -> Qeq_bool a b = false.
Proof.
  intros Hne. destruct (Qeq_bool a b) eqn:E; [|reflexivity].
  apply Qeq_bool_iff in E. contradiction.
Qed.

Lemma sqr_pos (a : Q) : 0 < a -> 0 < Py.sqr a.
Proof. intros Ha. unfold Py.sqr. simpl. apply Qmult_lt_0_compat; exact Ha. Qed.

(** One axis contributes nothing exactly when the point is within the
    span on that axis. *)
Lemma axis_dist_zero (lo hi v : Q) :
  lo <= hi ->
  0 <= (if Py.Qltb v lo then Py.sqr (lo - v)
        else if Py.Qltb hi v then Py.sqr (v - hi) else 0) /\
  ((if Py.Qltb v lo then Py.sqr (lo - v)
    else if Py.Qltb hi v then Py.sqr (v - hi) else 0) <= 0 <->
   (Py.Qltb v lo || Py.Qltb hi v)%bool = false).
Proof.
  intros Hle.
  destruct (Py.Qltb v lo) eqn:E1; [apply Qltb_lt in E1 | apply Qltb_ge in E1].
  - split; [apply sqr_nonneg|]. split; [|discriminate]. intros H0.
    pose proof (sqr_pos (lo - v)). lra.
  - destruct (Py.Qltb hi v) eqn:E2; [apply Qltb_lt in E2 | apply Qltb_ge in E2].
    + split; [apply sqr_nonneg|]. split; [|discriminate]. intros H0.
      pose proof (sqr_pos (v - hi)). lra.
    + split; [lra|]. split; [reflexivity | lra].
Qed.

(** X7: for a rectangle of positive width and height, the rectangle
    contains the point exactly when the distance the loop computes is
    zero, so breaking at a containing zone and picking the least
    distance agree. *)
Theorem contains_iff_zone_dist_zero (rect : Qt.QRectF) (x y : Q) :
  0 < Qt.width rect -> 0 < Qt.height rect ->
  (Qt.contains rect x y = true <-> zone_dist rect x y == 0).
Proof.
  intros Hw Hh. rewrite zone_dist_axes. unfold Qt.contains.
  rewrite (proj2 (Qltb_ge (Qt.width rect) 0)) by lra.
  rewrite (proj2 (Qltb_ge (Qt.height rect) 0)) by lra.
  rewrite !Qeq_bool_false by lra.
  destruct (axis_dist_zero (Qt.x rect) (Qt.x rect + Qt.width rect) x)
    as [Hx0 Hx]; [lra|].
  destruct (axis_dist_zero (Qt.y rect) (Qt.y rect + Qt.height rect) y)
    as [Hy0 Hy]; [lra|].
  set (ax := if Py.Qltb x (Qt.x rect) then _ else _) in *.
  set (ay := if Py.Qltb y (Qt.y rect) then _ else _) in *.
  destruct (Py.Qltb x (Qt.x rect) || Py.Qltb (Qt.x rect + Qt.width rect) x)%bool.
  - split; [discriminate|]. intros Hg.
    assert (Hf : true = false) by (apply Hx; lra). discriminate Hf.
  - destruct (Py.Qltb y (Qt.y rect) || Py.Qltb (Qt.y rect + Qt.height rect) y)%bool.
    + split; [discriminate|]. intros Hg.
      assert (Hf : true = false) by (apply Hy; lra). discriminate Hf.
    + split; [|reflexivity]. intros _.
      assert (ax <= 0) by (apply Hx; reflexivity).
      assert (ay <= 0) by (apply Hy; reflexivity). lra.
Qed.

Lemma contains_iff_zone_dist_zero_witness :
  Qt.contains (Qt.mkQRectF 0 0 16 16) 16 4 = true <->
  zone_dist (Qt.mkQRectF 0 0 16 16) 16 4 == 0.
Proof.
  apply (contains_iff_zone_dist_zero (Qt.mkQRectF 0 0 16 16) 16 4);
    reflexivity.
Defined.

(** ** Setting the rounded rectangle *)



(** The grouped and the separate views of a spritebox agree:
    [setOffset] leaves the size, [setSize] leaves the offset,
    [setDimensions] is [setOffset] followed by [setSize], none of them
    touches [scale] or [shown], and the three deleters restore (0,0) and
    (16,16). *)
Lemma Spritebox_views (box : Spritebox.t) (x y w h : Q) :
  Spritebox.getDimensions (Spritebox.setOffset box (x, y)) =
    (x, y, Spritebox.width box, Spritebox.height box) /\
  Spritebox.getDimensions (Spritebox.setSize box (w, h)) =
    (Spritebox.xOffset box, Spritebox.yOffset box, w, h) /\
  Spritebox.setDimensions box (x, y, w, h) =
    Spritebox.setSize (Spritebox.setOffset box (x, y)) (w, h) /\
  Spritebox.getOffset (Spritebox.setDimensions box (x, y, w, h)) = (x, y) /\
  Spritebox.getSize (Spritebox.setDimensions box (x, y, w, h)) = (w, h) /\
  Spritebox.delDimensions box =
    Spritebox.delSize (Spritebox.delOffset box) /\
  Spritebox.getDimensions (Spritebox.delSize (Spritebox.setOffset box (x, y))) =
    (x, y, 16, 16) /\
  Spritebox.getDimensions (Spritebox.delOffset (Spritebox.setSize box (w, h))) =
    (0, 0, w, h) /\
  Spritebox.scale (Spritebox.setDimensions box (x, y, w, h)) = Spritebox.scale box /\
  Spritebox.shown (Spritebox.setDimensions box (x, y, w, h)) = Spritebox.shown box /\
  Spritebox.scale (Spritebox.delDimensions box) = Spritebox.scale box /\
  Spritebox.shown (Spritebox.delDimensions box) = Spritebox.shown box.
Proof. repeat split. Qed.

(** ** Static sprite images *)

(** X10: a static sprite image built with an image already has the size
    [dataChanged] computes, (image width / scale + 1, image height /
    scale + 2): calling [dataChanged] on the new object, or calling it a
    second time, changes nothing; the offset given to the constructor is
    kept. *)
Theorem SpriteImage_Static_dataChanged_stable (dims : Qt.Image -> Q * Q)
    (parent : positive) (scale : Q) (img : Qt.Image) (offset : option (Q * Q)) :
  ~ scale == 0 ->
  exists self,
    SpriteImage_Static.init dims parent scale (Some img) offset = Py.Ok self /\
    SpriteImage.getSize self = ((dims img).1 / scale + 1, (dims img).2 / scale + 2) /\
    SpriteImage.getOffset self = default (0, 0) offset /\
    Spritebox.shown (SpriteImage.spritebox self) = false /\
    SpriteImage_Static.dataChanged dims self = Py.Ok self.
Proof.
  intros Hs. unfold SpriteImage_Static.init. cbn [SpriteImage.image SpriteImage.scale].
  cbn [SpriteImage.init SpriteImage.setDimensions SpriteImage.scale].
  rewrite !truediv_nonzero by assumption. cbn [Py.bind].
  destruct offset as [[ox oy]|]; eexists; (split; [reflexivity|]);
    unfold SpriteImage_Static.dataChanged;
    cbn [SpriteImage.image SpriteImage.scale SpriteImage.setSize
         SpriteImage.setOffset];
    rewrite !truediv_nonzero by assumption; repeat split.
Qed.

Lemma SpriteImage_Static_dataChanged_stable_witness :
  exists self,
    SpriteImage_Static.init (fun _ => (24, 48)) 1 1.5 (Some (Qt.QPixmap "a.png"))
      (Some (3, 4)) = Py.Ok self /\
    SpriteImage.getSize self = (24 / 1.5 + 1, 48 / 1.5 + 2).
Proof.
  destruct (SpriteImage_Static_dataChanged_stable (fun _ => (24, 48)) 1 1.5
              (Qt.QPixmap "a.png") (Some (3, 4))) as (self & H1 & H2 & _).
  - intros H. vm_compute in H. discriminate H.
  - exists self. split; [exact H1 | exact H2].
Defined.

(** X11: without an image [dataChanged] resets the size to (16,16) and
    keeps the offset, and [paint] makes no painter call; with an image and
    a scale of 0, the constructor and [dataChanged] raise
    [ZeroDivisionError], and [paint] raises it after [save] and
    [setOpacity], before any [restore]. *)
Theorem SpriteImage_Static_edges (dims : Qt.Image -> Q * Q) (self : SpriteImage.t) :
  (SpriteImage.image self = None ->
   (exists self',
      SpriteImage_Static.dataChanged dims self = Py.Ok self' /\
      SpriteImage.getDimensions self' =
        (SpriteImage.xOffset self, SpriteImage.yOffset self, 16, 16)) /\
   SpriteImage_Static.paint self = (Py.Ok tt, [])) /\
  (forall img,
     SpriteImage.image self = Some img ->
     SpriteImage.scale self == 0 ->
     SpriteImage_Static.dataChanged dims self = Py.Raise Py.ZeroDivisionError /\
     SpriteImage_Static.init dims (SpriteImage.parent self) (SpriteImage.scale self)
       (Some img) None = Py.Raise Py.ZeroDivisionError /\
     SpriteImage_Static.paint self =
       (Py.Raise Py.ZeroDivisionError,
        [save; op (Qt.setOpacity (SpriteImage.alpha self))])).
Proof.
  split.
  - intros Himg. unfold SpriteImage_Static.dataChanged, SpriteImage_Static.paint.
    rewrite Himg. split; [|reflexivity]. eexists. split; reflexivity.
  - intros img Himg Hs. apply Qeq_bool_iff in Hs.
    unfold SpriteImage_Static.dataChanged, SpriteImage_Static.paint,
      SpriteImage_Static.init.
    rewrite Himg. cbn [SpriteImage.image SpriteImage.scale SpriteImage.init
                       SpriteImage.setDimensions].
    unfold Py.truediv. rewrite Hs. repeat split.
Qed.

Lemma SpriteImage_Static_edges_witness :
  SpriteImage_Static.paint (SpriteImage.init 1 1.5) = (Py.Ok tt, []).
Proof.
  refine (proj2 (proj1 (SpriteImage_Static_edges (fun _ => (0, 0))
                          (SpriteImage.init 1 1.5)) _)).
  reflexivity.
Defined.

(** ** Tracks *)

(** X12: whatever the size, the track is drawn about the centre of its
    bounding rectangle: the middle of the line is the centre of the
    bounding rectangle, for a horizontal as for a vertical track, and the
    centres of the two end circles are mirror images of each other about
    it. *)
Theorem track_centred (parent : ref) (width height : Q) (direction : Z)
    (option : option Qt.QRectF) :
  let track := AuxiliaryTrackObject.init parent width height direction in
  let cmds := AuxiliaryTrackObject.paint track option in
  let centre := rect_center (AuxiliaryTrackObject.boundingRect track) in
  exists line e1 e2,
    drawn_lines cmds = [line] /\
    drawn_ellipses cmds = [e1; e2] /\
    line_middle line ≡ centre /\
    ((ellipse_center e1).1 + (ellipse_center e2).1) / 2 == centre.1 /\
    ((ellipse_center e1).2 + (ellipse_center e2).2) / 2 == centre.2 /\
    ellipse_diameters e1 = (8, 8) /\ ellipse_diameters e2 = (8, 8).
Proof.
  intros track cmds centre. subst track cmds centre.
  unfold AuxiliaryTrackObject.paint, AuxiliaryTrackObject.init.
  cbn [AuxiliaryTrackObject.direction AuxiliaryTrackObject.height
       AuxiliaryTrackObject.width AuxiliaryTrackObject.boundingRect
       AuxiliaryTrackObject.BoundingRect].
  destruct (direction =? AuxiliaryTrackObject.Horizontal)%Z, option;
    do 3 eexists; (split; [reflexivity|]); (split; [reflexivity|]);
    (split; [split; simpl; unfold equiv, Q_equiv; field|]);
    (split; [simpl; field|]); (split; [simpl; field|]); split; reflexivity.
Qed.

(** X13: a vertical track is the mirror image of the horizontal track of
    exchanged width and height, and every direction other than
    [Horizontal] is drawn as vertical. *)
Theorem track_vertical_mirror (parent : ref) (width height : Q) (direction : Z)
    (option : option Qt.QRectF) :
  direction <> AuxiliaryTrackObject.Horizontal ->
  let vertical := AuxiliaryTrackObject.init parent width height direction in
  let horizontal := AuxiliaryTrackObject.init parent height width
                      AuxiliaryTrackObject.Horizontal in
  drawn_lines (AuxiliaryTrackObject.paint vertical option) =
    map transpose4 (drawn_lines (AuxiliaryTrackObject.paint horizontal option)) /\
  drawn_ellipses (AuxiliaryTrackObject.paint vertical option) =
    map transpose4 (drawn_ellipses (AuxiliaryTrackObject.paint horizontal option)) /\
  AuxiliaryTrackObject.paint vertical option =
    AuxiliaryTrackObject.paint
      (AuxiliaryTrackObject.init parent width height AuxiliaryTrackObject.Vertical)
      option.
Proof.
  intros Hd vertical horizontal. subst vertical horizontal.
  unfold AuxiliaryTrackObject.paint, AuxiliaryTrackObject.init.
  cbn [AuxiliaryTrackObject.direction AuxiliaryTrackObject.height
       AuxiliaryTrackObject.width].
  rewrite (proj2 (Z.eqb_neq _ _) Hd).
  destruct option; repeat split.
Qed.

Lemma track_vertical_mirror_witness :
  drawn_lines
    (AuxiliaryTrackObject.paint
       (AuxiliaryTrackObject.init 1%positive 16 100 AuxiliaryTrackObject.Vertical)
       None) =
  map transpose4
    (drawn_lines
       (AuxiliaryTrackObject.paint
          (AuxiliaryTrackObject.init 1%positive 100 16 AuxiliaryTrackObject.Horizontal)
          None)).
Proof.
  refine (proj1 (track_vertical_mirror 1%positive 16 100
                   AuxiliaryTrackObject.Vertical None _)).
  discriminate.
Defined.

(** ** Circle and rotation outlines *)

(** X14: [setSize(width)] of a circle outline makes the bounding square
    of side [width * 1.5] and places it in the 24 by 24 tile according to
    the alignment: centred on 12 with [AlignHCenter], otherwise its right
    edge on 24 with [AlignRight], otherwise its left edge on 0; and the
    same vertically with [AlignVCenter] and [AlignBottom]. *)
Theorem circle_outline_alignment (self : AuxiliaryCircleOutline.t) (width : Q) :
  let self' := (AuxiliaryCircleOutline.setSize self width).1 in
  let mode := AuxiliaryCircleOutline.alignMode self in
  let area := covered (AuxiliaryCircleOutline.pos self')
                (AuxiliaryCircleOutline.BoundingRect self') in
  Qt.width area = width * 1.5 /\ Qt.height area = width * 1.5 /\
  AuxiliaryCircleOutline.width self' = width /\
  (flag_set mode Qt.AlignHCenter = true -> (rect_center area).1 == 12) /\
  (flag_set mode Qt.AlignHCenter = false -> flag_set mode Qt.AlignRight = true ->
     Qt.x area + Qt.width area == 24) /\
  (flag_set mode Qt.AlignHCenter = false -> flag_set mode Qt.AlignRight = false ->
     Qt.x area == 0) /\
  (flag_set mode Qt.AlignVCenter = true -> (rect_center area).2 == 12) /\
  (flag_set mode Qt.AlignVCenter = false -> flag_set mode Qt.AlignBottom = true ->
     Qt.y area + Qt.height area == 24) /\
  (flag_set mode Qt.AlignVCenter = false -> flag_set mode Qt.AlignBottom = false ->
     Qt.y area == 0).
Proof.
  intros self' mode area. subst self' mode area.
  unfold AuxiliaryCircleOutline.setSize, covered, rect_center.
  cbn [fst snd AuxiliaryCircleOutline.pos AuxiliaryCircleOutline.BoundingRect
       AuxiliaryCircleOutline.width Qt.x Qt.y Qt.width Qt.height].
  split; [reflexivity|]. split; [reflexivity|]. split; [reflexivity|].
  repeat split; intros; repeat match goal with H : flag_set _ _ = _ |- _ =>
                                 rewrite H; clear H end; field.
Qed.

(** With the default alignment the circle is centred horizontally and
    hangs from the top of the tile. *)
Lemma circle_outline_alignment_witness :
  let self := AuxiliaryCircleOutline.init 1%positive 32 Qt.AlignHCenter in
  let area := covered (AuxiliaryCircleOutline.pos self)
                (AuxiliaryCircleOutline.BoundingRect self) in
  (rect_center area).1 == 12 /\ Qt.y area == 0.
Proof.
  intros self area.
  pose proof (circle_outline_alignment
    {| AuxiliaryCircleOutline.parent := 1%positive;
       AuxiliaryCircleOutline.hover := false;
       AuxiliaryCircleOutline.fillFlag := true;
       AuxiliaryCircleOutline.alignMode := Qt.AlignHCenter;
       AuxiliaryCircleOutline.BoundingRect := Qt.mkQRectF 0 0 24 24;
       AuxiliaryCircleOutline.pos := (0, 0);
       AuxiliaryCircleOutline.width := 0 |} 32)
    as (_ & _ & _ & Hc & _ & _ & _ & _ & Ht).
  split; [apply Hc; reflexivity | apply Ht; reflexivity].
Defined.

(** X15: a rotation area outline of any width is centred on the centre
    (12, 12) of the tile; [SetAngle] replaces the angles (it multiplies
    the ones given by 16 and keeps nothing of the previous ones) and
    leaves the geometry alone, and [paint] draws the pie slice of those
    angles in the bounding square. *)
Theorem rotation_outline_centred (parent : ref) (width a b c d : Q) :
  let self := AuxiliaryRotationAreaOutline.init parent width in
  let turned :=
    AuxiliaryRotationAreaOutline.SetAngle
      (AuxiliaryRotationAreaOutline.SetAngle self a b) c d in
  rect_center (covered (AuxiliaryRotationAreaOutline.pos self)
                 (AuxiliaryRotationAreaOutline.BoundingRect self)) ≡ (12, 12) /\
  turned = AuxiliaryRotationAreaOutline.SetAngle self c d /\
  AuxiliaryRotationAreaOutline.pos turned = AuxiliaryRotationAreaOutline.pos self /\
  AuxiliaryRotationAreaOutline.paint turned =
    [op Qt.setRenderHint_Antialiasing; op Qt.setPen_OutlinePen;
     op Qt.setBrush_OutlineBrush;
     drawPie (Qt.mkQRectF 0 0 (width * 1.5) (width * 1.5)) (c * 16) (d * 16)].
Proof.
  intros self turned. subst self turned.
  split; [|repeat split].
  split; simpl; unfold equiv, Q_equiv; field.
Qed.

(** ** Alignment flags *)

Lemma lor_absorbs_iff (flags flag : Z) :
  Z.lor flags flag = flags <-> Z.land flags flag = flag.
Proof.
  split; intros H; apply Z.bits_inj'; intros n Hn.
  - apply (f_equal (fun z => Z.testbit z n)) in H.
    rewrite Z.lor_spec in H. rewrite Z.land_spec.
    destruct (Z.testbit flags n), (Z.testbit flag n); simpl in *; congruence.
  - apply (f_equal (fun z => Z.testbit z n)) in H.
    rewrite Z.land_spec in H. rewrite Z.lor_spec.
    destruct (Z.testbit flags n), (Z.testbit flag n); simpl in *; congruence.
Qed.

(** X16: [flagPresent(flags, flag)] holds exactly when every bit of
    [flag] is set in [flags]; so the alignment [AlignTop | AlignLeft] an
    image starts with has both flags present and none of the others. *)
Theorem flagPresent_iff (flags flag : Z) :
  (AuxiliaryImage_FollowsRect.flagPresent flags flag = true <->
   Z.land flags flag = flag) /\
  (forall parent in_scene width height,
     let alignment :=
       AuxiliaryImage_FollowsRect.alignment
         (AuxiliaryImage_FollowsRect.init parent in_scene width height) in
     AuxiliaryImage_FollowsRect.flagPresent alignment Qt.AlignTop = true /\
     AuxiliaryImage_FollowsRect.flagPresent alignment Qt.AlignLeft = true /\
     AuxiliaryImage_FollowsRect.flagPresent alignment Qt.AlignRight = false /\
     AuxiliaryImage_FollowsRect.flagPresent alignment Qt.AlignBottom = false /\
     AuxiliaryImage_FollowsRect.flagPresent alignment Qt.AlignHCenter = false /\
     AuxiliaryImage_FollowsRect.flagPresent alignment Qt.AlignVCenter = false).
Proof.
  split.
  - unfold AuxiliaryImage_FollowsRect.flagPresent.
    rewrite Z.eqb_eq. apply lor_absorbs_iff.
  - intros parent in_scene width height alignment. repeat split.
Qed.

(** ** Following a rectangle *)

Section Following.

Import AuxiliaryImage_FollowsRect.

(** After [move] the item is where [move] computed it should be. *)
Lemma move_pos (self : t) (x y w h newx newy : Q) :
  move_target self x y w h = Some (newx, newy) ->
  (pos (move self x y w h).1).1 == newx /\
  (pos (move self x y w h).1).2 == newy.
Proof.
  intros Ht. pose proof (move_cases self x y w h) as Hc. rewrite Ht in Hc.
  destruct (move_resize_fields self w h) as (_ & _ & _ & Hpos & _).
  destruct (Qeq_bool newx (pos self).1 && Qeq_bool newy (pos self).2)%bool eqn:E.
  - rewrite Hc. cbn [fst]. rewrite Hpos.
    apply andb_true_iff in E as [E1 E2].
    apply Qeq_bool_iff in E1, E2. split; symmetry; assumption.
  - destruct Hc as (px & py & _ & ->). split; reflexivity.
Qed.

(** Size and image after [move] are those of its first part. *)
Lemma move_size_image (self : t) (x y w h : Q) :
  width (move self x y w h).1 = width (move_resize self w h) /\
  height (move self x y w h).1 = height (move_resize self w h) /\
  image (move self x y w h).1 = image (move_resize self w h) /\
  realwidth (move self x y w h).1 = realwidth self /\
  realheight (move self x y w h).1 = realheight self /\
  realimage (move self x y w h).1 = realimage self /\
  alignment (move self x y w h).1 = alignment self /\
  BoundingRect (move self x y w h).1 = BoundingRect self.
Proof.
  pose proof (move_cases self x y w h) as Hc.
  destruct (move_resize_fields self w h)
    as (_ & _ & Hbr & _ & Hal & Hrw & Hrh & Hri).
  destruct (move_target self x y w h) as [[newx newy]|].
  - destruct (Qeq_bool newx (pos self).1 && Qeq_bool newy (pos self).2)%bool.
    + rewrite Hc. cbn [fst]. repeat split; assumption.
    + destruct Hc as (px & py & _ & ->). cbn [fst].
      repeat split; assumption.
  - rewrite Hc. cbn [fst]. repeat split; assumption.
Qed.

Lemma move_resize_bounds (self : t) (w h : Q) :
  width (move_resize self w h) <= w /\
  width (move_resize self w h) <= realwidth self /\
  height (move_resize self w h) <= h /\
  height (move_resize self w h) <= realheight self.
Proof.
  destruct (move_resize_size self w h) as [-> ->].
  case_Qltb; repeat split; lra.
Qed.

End Following.

(** X17: after [move(x, y, w, h)] the item is never larger than the room
    given nor than its real size, and when its parent is alive it lies
    inside the rectangle followed, whatever its alignment: in scene
    coordinates its left edge is at or after [x], its right edge at or
    before [x + w], and likewise vertically. *)
Theorem move_inside_rect (self : AuxiliaryImage_FollowsRect.t)
    (x y w h px py : Q) :
  AuxiliaryImage_FollowsRect.parent self = alive px py ->
  let self' := (AuxiliaryImage_FollowsRect.move self x y w h).1 in
  let left := (AuxiliaryImage_FollowsRect.pos self').1 + px in
  let top := (AuxiliaryImage_FollowsRect.pos self').2 + py in
  AuxiliaryImage_FollowsRect.width self' <= w /\
  AuxiliaryImage_FollowsRect.width self' <= AuxiliaryImage_FollowsRect.realwidth self /\
  AuxiliaryImage_FollowsRect.height self' <= h /\
  AuxiliaryImage_FollowsRect.height self' <= AuxiliaryImage_FollowsRect.realheight self /\
  x <= left /\ left + AuxiliaryImage_FollowsRect.width self' <= x + w /\
  y <= top /\ top + AuxiliaryImage_FollowsRect.height self' <= y + h.
Proof.
  intros Hp self' left top. subst self' left top.
  destruct (move_size_image self x y w h) as (Hw & Hh & _).
  destruct (move_resize_bounds self w h) as (B1 & B2 & B3 & B4).
  destruct (move_resize_fields self w h) as (Hpar & _).
  assert (Ht : AuxiliaryImage_FollowsRect.move_target self x y w h =
    Some ((AuxiliaryImage_FollowsRect.move_absolute
             (AuxiliaryImage_FollowsRect.move_resize self w h) x y w h).1 - px,
          (AuxiliaryImage_FollowsRect.move_absolute
             (AuxiliaryImage_FollowsRect.move_resize self w h) x y w h).2 - py)).
  { unfold AuxiliaryImage_FollowsRect.move_target.
    destruct (AuxiliaryImage_FollowsRect.move_absolute _ x y w h).
    rewrite Hpar, Hp. reflexivity. }
  destruct (move_pos self x y w h _ _ Ht) as [Hx Hy].
  rewrite Hw, Hh, Hx, Hy.
  unfold AuxiliaryImage_FollowsRect.move_absolute. cbn [fst snd].
  repeat split; try assumption;
    repeat match goal with
           | |- context [AuxiliaryImage_FollowsRect.flagPresent ?a ?b] =>
               destruct (AuxiliaryImage_FollowsRect.flagPresent a b)
           end; unfold Qdiv; change (/ 2) with (1 # 2); lra.
Qed.

Lemma move_inside_rect_witness :
  let self' := (AuxiliaryImage_FollowsRect.move Sample.follower 3 4 5 20).1 in
  AuxiliaryImage_FollowsRect.width self' <= 5 /\
  AuxiliaryImage_FollowsRect.width self' <= 10.
Proof.
  destruct (move_inside_rect Sample.follower 3 4 5 20 0 0) as (H1 & H2 & _).
  - reflexivity.
  - split; [exact H1 | exact H2].
Defined.

(** X18: where [move] puts the item: with [AlignLeft] its left edge is
    the left edge of the rectangle; otherwise with [AlignRight] its right
    edge is the right edge of the rectangle; otherwise it is centred
    horizontally; and the same vertically with [AlignTop] and
    [AlignBottom]. *)
Theorem move_alignment (self : AuxiliaryImage_FollowsRect.t)
    (x y w h px py : Q) :
  AuxiliaryImage_FollowsRect.parent self = alive px py ->
  let self' := (AuxiliaryImage_FollowsRect.move self x y w h).1 in
  let left := (AuxiliaryImage_FollowsRect.pos self').1 + px in
  let top := (AuxiliaryImage_FollowsRect.pos self').2 + py in
  let present := AuxiliaryImage_FollowsRect.flagPresent
                   (AuxiliaryImage_FollowsRect.alignment self) in
  (present Qt.AlignLeft = true -> left == x) /\
  (present Qt.AlignLeft = false -> present Qt.AlignRight = true ->
     left + AuxiliaryImage_FollowsRect.width self' == x + w) /\
  (present Qt.AlignLeft = false -> present Qt.AlignRight = false ->
     left + AuxiliaryImage_FollowsRect.width self' / 2 == x + w / 2) /\
  (present Qt.AlignTop = true -> top == y) /\
  (present Qt.AlignTop = false -> present Qt.AlignBottom = true ->
     top + AuxiliaryImage_FollowsRect.height self' == y + h) /\
  (present Qt.AlignTop = false -> present Qt.AlignBottom = false ->
     top + AuxiliaryImage_FollowsRect.height self' / 2 == y + h / 2).
Proof.
  intros Hp self' left top present. subst self' left top present.
  destruct (move_size_image self x y w h) as (Hw & Hh & _).
  destruct (move_resize_fields self w h) as (Hpar & _ & _ & _ & Hal & _).
  assert (Ht : AuxiliaryImage_FollowsRect.move_target self x y w h =
    Some ((AuxiliaryImage_FollowsRect.move_absolute
             (AuxiliaryImage_FollowsRect.move_resize self w h) x y w h).1 - px,
          (AuxiliaryImage_FollowsRect.move_absolute
             (AuxiliaryImage_FollowsRect.move_resize self w h) x y w h).2 - py)).
  { unfold AuxiliaryImage_FollowsRect.move_target.
    destruct (AuxiliaryImage_FollowsRect.move_absolute _ x y w h).
    rewrite Hpar, Hp. reflexivity. }
  destruct (move_pos self x y w h _ _ Ht) as [Hx Hy].
  rewrite Hw, Hh, Hx, Hy.
  unfold AuxiliaryImage_FollowsRect.move_absolute. cbn [fst snd]. rewrite Hal.
  repeat split; intros;
    repeat match goal with
           | H : AuxiliaryImage_FollowsRect.flagPresent _ _ = _ |- _ =>
               rewrite H; clear H
           end; field.
Qed.

Lemma move_alignment_witness :
  (AuxiliaryImage_FollowsRect.pos
     (AuxiliaryImage_FollowsRect.move Sample.follower 3 4 5 20).1).1 + 0 == 3.
Proof.
  destruct (move_alignment Sample.follower 3 4 5 20 0 0) as (H1 & _).
  - reflexivity.
  - apply H1. reflexivity.
Defined.

(** The image after [move]. *)
Lemma move_image_cases (self : AuxiliaryImage_FollowsRect.t) (x y w h : Q) :
  let self' := (AuxiliaryImage_FollowsRect.move self x y w h).1 in
  AuxiliaryImage_FollowsRect.image self' =
    match AuxiliaryImage_FollowsRect.realimage self with
    | Some full =>
        if (Py.Qltb w (AuxiliaryImage_FollowsRect.realwidth self) ||
            Py.Qltb h (AuxiliaryImage_FollowsRect.realheight self))%bool
        then Some (Qt.copy full 0 0 w h) else Some full
    | None => AuxiliaryImage_FollowsRect.image self
    end /\
  AuxiliaryImage_FollowsRect.realimage self' =
    AuxiliaryImage_FollowsRect.realimage self /\
  AuxiliaryImage_FollowsRect.realwidth self' =
    AuxiliaryImage_FollowsRect.realwidth self /\
  AuxiliaryImage_FollowsRect.realheight self' =
    AuxiliaryImage_FollowsRect.realheight self /\
  (AuxiliaryImage_FollowsRect.realimage self <> None ->
   forall x' y' w' h',
     AuxiliaryImage_FollowsRect.image
       (AuxiliaryImage_FollowsRect.move self' x' y' w' h').1 =
     AuxiliaryImage_FollowsRect.image
       (AuxiliaryImage_FollowsRect.move self x' y' w' h').1).
Proof.
  intros self'. subst self'.
  destruct (move_size_image self x y w h) as (_ & _ & Hi & Hrw & Hrh & Hri & _).
  assert (Himg : forall s w0 h0,
    AuxiliaryImage_FollowsRect.image (AuxiliaryImage_FollowsRect.move_resize s w0 h0) =
    match AuxiliaryImage_FollowsRect.realimage s with
    | Some full =>
        if (Py.Qltb w0 (AuxiliaryImage_FollowsRect.realwidth s) ||
            Py.Qltb h0 (AuxiliaryImage_FollowsRect.realheight s))%bool
        then Some (Qt.copy full 0 0 w0 h0) else Some full
    | None => AuxiliaryImage_FollowsRect.image s
    end).
  { intros s w0 h0. unfold AuxiliaryImage_FollowsRect.move_resize.
    destruct (Py.Qltb w0 _), (Py.Qltb h0 _),
      (AuxiliaryImage_FollowsRect.realimage s); reflexivity. }
  split; [rewrite Hi; apply Himg|]. repeat split; try assumption.
  intros Hsome x' y' w' h'.
  destruct (AuxiliaryImage_FollowsRect.realimage self) as [full|] eqn:E;
    [|congruence].
  destruct (move_size_image (AuxiliaryImage_FollowsRect.move self x y w h).1
              x' y' w' h') as (_ & _ & -> & _).
  destruct (move_size_image self x' y' w' h') as (_ & _ & -> & _).
  rewrite !Himg, Hri, Hrw, Hrh, E. reflexivity.
Qed.

(** X19: the image [move] shows is cut from the retained full image each
    time, never from an earlier cut: with a retained image it is the
    retained image when the room is at least the real size, and its copy
    [(0, 0, w, h)] when the room is narrower or lower; without one the
    image is left alone.  The retained image and the real size are never
    changed by [move]. *)
Theorem move_image (self : AuxiliaryImage_FollowsRect.t) (x y w h : Q) :
  let self' := (AuxiliaryImage_FollowsRect.move self x y w h).1 in
  AuxiliaryImage_FollowsRect.image self' =
    match AuxiliaryImage_FollowsRect.realimage self with
    | Some full =>
        if (Py.Qltb w (AuxiliaryImage_FollowsRect.realwidth self) ||
            Py.Qltb h (AuxiliaryImage_FollowsRect.realheight self))%bool
        then Some (Qt.copy full 0 0 w h) else Some full
    | None => AuxiliaryImage_FollowsRect.image self
    end /\
  AuxiliaryImage_FollowsRect.realimage self' =
    AuxiliaryImage_FollowsRect.realimage self /\
  AuxiliaryImage_FollowsRect.realwidth self' =
    AuxiliaryImage_FollowsRect.realwidth self /\
  AuxiliaryImage_FollowsRect.realheight self' =
    AuxiliaryImage_FollowsRect.realheight self /\
  (AuxiliaryImage_FollowsRect.realimage self <> None ->
   forall x' y' w' h',
     AuxiliaryImage_FollowsRect.image
       (AuxiliaryImage_FollowsRect.move self' x' y' w' h').1 =
     AuxiliaryImage_FollowsRect.image
       (AuxiliaryImage_FollowsRect.move self x' y' w' h').1).
Proof. apply move_image_cases. Qed.

(** X20: the scene events of [move]: none when the parent has been
    deleted (the position is then kept); otherwise either none, or one
    [setPos] to the computed position followed, only for an item in a
    scene, by one update of the rectangle at the old position with the
    new size. *)
Theorem move_events (self : AuxiliaryImage_FollowsRect.t) (x y w h : Q) :
  (AuxiliaryImage_FollowsRect.parent self = deleted ->
   (AuxiliaryImage_FollowsRect.move self x y w h).2 = [] /\
   AuxiliaryImage_FollowsRect.pos (AuxiliaryImage_FollowsRect.move self x y w h).1 =
     AuxiliaryImage_FollowsRect.pos self) /\
  (forall px py,
     AuxiliaryImage_FollowsRect.parent self = alive px py ->
     let self' := (AuxiliaryImage_FollowsRect.move self x y w h).1 in
     let old := AuxiliaryImage_FollowsRect.pos self in
     let new := AuxiliaryImage_FollowsRect.pos self' in
     (AuxiliaryImage_FollowsRect.move self x y w h).2 = [] /\ new = old \/
     ~ (new.1 == old.1 /\ new.2 == old.2) /\
     (AuxiliaryImage_FollowsRect.move self x y w h).2 =
       setPos new.1 new.2 ::
       if AuxiliaryImage_FollowsRect.in_scene self
       then [scene_update (old.1 + px) (old.2 + py)
               (AuxiliaryImage_FollowsRect.width self')
               (AuxiliaryImage_FollowsRect.height self')]
       else []).
Proof.
  pose proof (move_cases self x y w h) as Hc.
  destruct (move_resize_fields self w h) as (Hpar & _ & _ & Hpos & _).
  split.
  - intros Hp. unfold AuxiliaryImage_FollowsRect.move_target in Hc.
    destruct (AuxiliaryImage_FollowsRect.move_absolute _ x y w h).
    rewrite Hpar, Hp in Hc. rewrite Hc. split; [reflexivity | exact Hpos].
  - intros px py Hp self' old new. subst self' old new.
    destruct (AuxiliaryImage_FollowsRect.move_target self x y w h)
      as [[newx newy]|].
    + destruct (Qeq_bool newx _ && Qeq_bool newy _)%bool eqn:E.
      * left. rewrite Hc. split; [reflexivity | exact Hpos].
      * right. destruct Hc as (px' & py' & Hp' & ->).
        rewrite Hp in Hp'. injection Hp' as <- <-. cbn [fst snd].
        split; [|reflexivity].
        cbn [AuxiliaryImage_FollowsRect.with_pos AuxiliaryImage_FollowsRect.pos
             fst snd].
        intros [H1 H2]. apply Qeq_bool_iff in H1, H2. rewrite H1, H2 in E.
        discriminate E.
    + left. rewrite Hc. split; [reflexivity | exact Hpos].
Qed.

Lemma move_events_witness :
  (AuxiliaryImage_FollowsRect.move
     (AuxiliaryImage_FollowsRect.init deleted true 10 10) 3 4 5 20).2 = [].
Proof.
  refine (proj1 (proj1 (move_events
                          (AuxiliaryImage_FollowsRect.init deleted true 10 10)
                          3 4 5 20) _)).
  reflexivity.
Defined.

Lemma move_image_witness :
  let painted :=
    (AuxiliaryImage_FollowsRect.paint
       (AuxiliaryImage_FollowsRect.with_size_image Sample.follower 10 10
          (Some (Qt.QPixmap "a.png"))) true None).1 in
  AuxiliaryImage_FollowsRect.image
    (AuxiliaryImage_FollowsRect.move
       (AuxiliaryImage_FollowsRect.move painted 0 0 5 5).1 0 0 30 30).1 =
  AuxiliaryImage_FollowsRect.image
    (AuxiliaryImage_FollowsRect.move painted 0 0 30 30).1.
Proof.
  intros painted.
  refine (proj2 (proj2 (proj2 (proj2 (move_image painted 0 0 5 5)))) _ 0 0 30 30).
  discriminate.
Defined.

(** X21: [setSize(width, height)] of a following image puts the item back
    at the origin and makes the size given both its size and its real
    size, so that later moves are limited by it; [move] then shrinks the
    width and height to the room given but never touches the bounding
    rectangle, which stays at the size set. *)
Theorem FollowsRect_setSize_then_move (self : AuxiliaryImage_FollowsRect.t)
    (width height x y w h : Q) :
  let sized := (AuxiliaryImage_FollowsRect_setSize self width height).1 in
  let moved := (AuxiliaryImage_FollowsRect.move sized x y w h).1 in
  (AuxiliaryImage_FollowsRect_setSize self width height).2 =
    [prepareGeometryChange; setPos 0 0] /\
  AuxiliaryImage_FollowsRect.pos sized = (0, 0) /\
  AuxiliaryImage_FollowsRect.BoundingRect sized = Qt.mkQRectF 0 0 width height /\
  (AuxiliaryImage_FollowsRect.width sized, AuxiliaryImage_FollowsRect.height sized) =
    (width, height) /\
  AuxiliaryImage_FollowsRect.width moved = (if Py.Qltb w width then w else width) /\
  AuxiliaryImage_FollowsRect.height moved = (if Py.Qltb h height then h else height) /\
  AuxiliaryImage_FollowsRect.BoundingRect moved = Qt.mkQRectF 0 0 width height.
Proof.
  intros sized moved. subst moved.
  destruct (move_size_image sized x y w h) as (Hw & Hh & _ & _ & _ & _ & _ & Hbr).
  destruct (move_resize_size sized w h) as [Hw' Hh'].
  rewrite Hw, Hh, Hbr, Hw', Hh'. subst sized. repeat split.
Qed.

(** X22: under the real view the first [paint] of an item with an image
    retains that image; from then on a [move] into a narrower or lower
    room shows the copy [(0, 0, w, h)] of it, and a later [move] into a
    room at least as large as the real size shows the whole image again.
    Outside the real view [paint] draws nothing and retains nothing. *)
Theorem FollowsRect_paint_retains (self : AuxiliaryImage_FollowsRect.t)
    (img : Qt.Image) (option : option Qt.QRectF) (x y w h x' y' w' h' : Q) :
  AuxiliaryImage_FollowsRect.image self = Some img ->
  AuxiliaryImage_FollowsRect.realimage self = None ->
  AuxiliaryImage_FollowsRect.realwidth self <= w' ->
  AuxiliaryImage_FollowsRect.realheight self <= h' ->
  let painted := (AuxiliaryImage_FollowsRect.paint self true option).1 in
  let shrunk := (AuxiliaryImage_FollowsRect.move painted x y w h).1 in
  let grown := (AuxiliaryImage_FollowsRect.move shrunk x' y' w' h').1 in
  AuxiliaryImage_FollowsRect.paint self false option = (self, []) /\
  AuxiliaryImage_FollowsRect.realimage painted = Some img /\
  AuxiliaryImage_FollowsRect.image shrunk =
    (if (Py.Qltb w (AuxiliaryImage_FollowsRect.realwidth self) ||
         Py.Qltb h (AuxiliaryImage_FollowsRect.realheight self))%bool
     then Some (Qt.copy img 0 0 w h) else Some img) /\
  AuxiliaryImage_FollowsRect.image grown = Some img /\
  AuxiliaryImage_FollowsRect.width grown = AuxiliaryImage_FollowsRect.realwidth self /\
  AuxiliaryImage_FollowsRect.height grown = AuxiliaryImage_FollowsRect.realheight self.
Proof.
  intros Himg Hreal Hw' Hh' painted shrunk grown.
  assert (Hp : AuxiliaryImage_FollowsRect.realimage painted = Some img /\
               AuxiliaryImage_FollowsRect.realwidth painted =
                 AuxiliaryImage_FollowsRect.realwidth self /\
               AuxiliaryImage_FollowsRect.realheight painted =
                 AuxiliaryImage_FollowsRect.realheight self).
  { subst painted. unfold AuxiliaryImage_FollowsRect.paint. rewrite Hreal.
    cbn [negb fst AuxiliaryImage_FollowsRect.realimage
         AuxiliaryImage_FollowsRect.realwidth AuxiliaryImage_FollowsRect.realheight].
    repeat split. exact Himg. }
  destruct Hp as (Hpi & Hpw & Hph).
  split; [reflexivity|]. split; [exact Hpi|].
  destruct (move_image_cases painted x y w h) as (Hs & Hsri & Hsrw & Hsrh & _).
  fold shrunk in Hs, Hsri, Hsrw, Hsrh.
  rewrite Hpi, Hpw, Hph in *.
  split; [exact Hs|].
  destruct (move_image_cases shrunk x' y' w' h') as (Hg & _). fold grown in Hg.
  rewrite Hsri, Hsrw, Hsrh in Hg.
  rewrite (proj2 (Qltb_ge w' _) Hw'), (proj2 (Qltb_ge h' _) Hh') in Hg.
  split; [exact Hg|].
  destruct (move_size_image shrunk x' y' w' h') as (Hgw & Hgh & _).
  destruct (move_resize_size shrunk w' h') as [Hw2 Hh2].
  fold grown in Hgw, Hgh. rewrite Hgw, Hgh, Hw2, Hh2, Hsrw, Hsrh.
  rewrite (proj2 (Qltb_ge w' _) Hw'), (proj2 (Qltb_ge h' _) Hh').
  split; reflexivity.
Qed.

Lemma FollowsRect_paint_retains_witness :
  let self := AuxiliaryImage_FollowsRect.with_size_image Sample.follower 10 10
                (Some (Qt.QPixmap "a.png")) in
  let painted := (AuxiliaryImage_FollowsRect.paint self true None).1 in
  let shrunk := (AuxiliaryImage_FollowsRect.move painted 0 0 5 5).1 in
  AuxiliaryImage_FollowsRect.image
    (AuxiliaryImage_FollowsRect.move shrunk 0 0 30 30).1 =
    Some (Qt.QPixmap "a.png").
Proof.
  intros self painted shrunk.
  destruct (FollowsRect_paint_retains self (Qt.QPixmap "a.png") None
              0 0 5 5 0 0 30 30) as (_ & _ & _ & H & _).
  - reflexivity.
  - reflexivity.
  - discriminate.
  - discriminate.
  - exact H.
Defined.

(** ** Re-parenting zone items *)

Lemma find_zone_last_match (h : Heap) (pre post : list ref) (r : ref)
    (zone : Zone) (zid : Z) :
  forall z0,
  (forall r', r' ∈ pre -> is_Some (zones h !! r')) ->
  zones h !! r = Some zone -> id zone = zid ->
  (forall r', r' ∈ post -> exists z', zones h !! r' = Some z' /\ id z' <> zid) ->
  find_zone h (pre ++ r :: post) zid z0 = Py.Ok (Some r).
Proof.
  induction pre as [|r0 pre IH]; intros z0 Hpre Hr Hid Hpost; simpl.
  - rewrite Hr, (proj2 (Z.eqb_eq _ _) Hid). by apply find_zone_absent.
  - destruct (Hpre r0) as [zone0 Hz0]; [by left|]. rewrite Hz0.
    destruct (id zone0 =? zid)%Z; apply IH; try assumption;
      intros r' Hr'; apply Hpre; by right.
Qed.

Lemma find_zone_found (h : Heap) (zs : list ref) (zid : Z) :
  forall z0 z,
  find_zone h zs zid z0 = Py.Ok (Some z) ->
  z0 = Some z \/ exists zone, zones h !! z = Some zone /\ id zone = zid.
Proof.
  induction zs as [|r zs IH]; intros z0 z H; simpl in H.
  - injection H as ->. by left.
  - destruct (zones h !! r) as [zone|] eqn:Hr; [|discriminate H].
    destruct (id zone =? zid)%Z eqn:E.
    + destruct (IH _ _ H) as [Heq | Hex]; [|by right].
      injection Heq as <-. right. exists zone. split; [exact Hr|].
      by apply Z.eqb_eq.
    + by apply IH.
Qed.

(** The heap after a successful [setZoneID] that finds the zone [z]. *)
Lemma setZoneID_found (self : ref) (zid : Z) (h : Heap) (zs : list ref)
    (z : ref) (zz : Zone) (item : AuxiliaryZoneItem.t) :
  Area_zones h = Some zs ->
  find_zone h zs zid None = Py.Ok (Some z) ->
  zones h !! z = Some zz ->
  zone_items h !! self = Some item ->
  match AuxiliaryZoneItem.parent item with
  | None =>
      setZoneID self zid h =
        (Py.Ok tt,
         mkHeap (<[z := zone_with_aux zz (aux zz ∪ {[self]})]> (zones h))
           (<[self := AuxiliaryZoneItem.with_parent item z]> (zone_items h))
           (Area_zones h))
  | Some p =>
      match zones h !! p with
      | None => setZoneID self zid h = (Py.Raise Py.AttributeError, h)
      | Some zp =>
          if bool_decide (self ∈ aux zp) then
            let emptied := zone_with_aux zp (aux zp ∖ {[self]}) in
            let target := if decide (z = p) then emptied else zz in
            setZoneID self zid h =
              (Py.Ok tt,
               mkHeap
                 (<[z := zone_with_aux target (aux target ∪ {[self]})]>
                    (<[p := emptied]> (zones h)))
                 (<[self := AuxiliaryZoneItem.with_parent item z]> (zone_items h))
                 (Area_zones h))
          else setZoneID self zid h = (Py.Raise Py.KeyError, h)
      end
  end.
Proof.
  intros Harea Hfind Hz Hitem. unfold setZoneID.
  rewrite Harea, Hfind, Hitem.
  destruct (AuxiliaryZoneItem.parent item) as [p|].
  - unfold aux_remove. destruct (zones h !! p) as [zp|] eqn:Hp; [|reflexivity].
    destruct (bool_decide (self ∈ aux zp)); [|reflexivity].
    unfold aux_add. cbn [zones zone_items Area_zones].
    destruct (decide (z = p)) as [->|Hne].
    + rewrite lookup_insert_eq, ?Harea. reflexivity.
    + rewrite lookup_insert_ne by congruence. rewrite Hz, ?Harea. reflexivity.
  - unfold aux_add. cbn [zones zone_items Area_zones].
    rewrite Hz, ?Harea. reflexivity.
Qed.

(** Membership in an aux set after [add] and [remove]. *)
Lemma aux_set_facts (s : gset ref) (item other : ref) :
  (item ∈ s ∪ {[item]}) /\
  (item ∉ s ∖ {[item]}) /\
  (other <> item ->
   (other ∈ s ∪ {[item]} <-> other ∈ s) /\
   (other ∈ s ∖ {[item]} <-> other ∈ s) /\
   (other ∈ (s ∖ {[item]}) ∪ {[item]} <-> other ∈ s)).
Proof.
  rewrite ?elem_of_union, ?elem_of_difference, ?elem_of_union,
    ?elem_of_difference, ?elem_of_singleton.
  repeat split; intros; tauto.
Qed.

(** X23: [setZoneID] keeps the ownership of the item consistent.  If the
    item is in the aux set of its parent zone and of no other zone, and
    some zone of [Area.zones] has the id (all zones of the list being
    live objects), the call succeeds, the parent of the item becomes the
    last zone of the list with that id, and the item is again in the aux
    set of its parent and of no other zone. *)
Theorem setZoneID_keeps_ownership (self : ref) (zid : Z) (h : Heap)
    (pre post : list ref) (z : ref) (zz : Zone) :
  owned_by_parent h self ->
  Area_zones h = Some (pre ++ z :: post) ->
  (forall r, r ∈ pre -> is_Some (zones h !! r)) ->
  zones h !! z = Some zz -> id zz = zid ->
  (forall r, r ∈ post -> exists z', zones h !! r = Some z' /\ id z' <> zid) ->
  (forall item p, zone_items h !! self = Some item ->
     AuxiliaryZoneItem.parent item = Some p -> is_Some (zones h !! p)) ->
  exists h',
    setZoneID self zid h = (Py.Ok tt, h') /\
    AuxiliaryZoneItem.parent <$> zone_items h' !! self = Some (Some z) /\
    AuxiliaryZoneItem.parentItem <$> zone_items h' !! self = Some (Some z) /\
    owned_by_parent h' self /\
    (forall r, id <$> zones h' !! r = id <$> zones h !! r) /\
    (forall other, other <> self ->
       zone_items h' !! other = zone_items h !! other /\
       forall r, ((fun zone => bool_decide (other ∈ aux zone)) <$> zones h' !! r) =
                 ((fun zone => bool_decide (other ∈ aux zone)) <$> zones h !! r)).
Proof.
  intros (item & Hitem & Hown) Harea Hpre Hz Hid Hpost Hlive.
  pose proof (find_zone_last_match h pre post z zz zid None Hpre Hz Hid Hpost)
    as Hfind.
  pose proof (setZoneID_found self zid h _ z zz item Harea Hfind Hz Hitem) as Hset.
  destruct (AuxiliaryZoneItem.parent item) as [p|] eqn:Hparent.
  - destruct (Hlive item p Hitem Hparent) as [zp Hp]. rewrite Hp in Hset.
    assert (Hin : self ∈ aux zp) by (apply (Hown p zp Hp); reflexivity).
    rewrite bool_decide_eq_true_2 in Hset by assumption. cbv zeta in Hset.
    eexists. split; [exact Hset|]. cbn [zones zone_items Area_zones].
    split; [by rewrite lookup_insert_eq|].
    split; [by rewrite lookup_insert_eq|]. split; [|split].
    + exists (AuxiliaryZoneItem.with_parent item z). cbn [zones zone_items].
      split; [by rewrite lookup_insert_eq|]. cbn [AuxiliaryZoneItem.with_parent
        AuxiliaryZoneItem.parent].
      intros zr zone Hzr. destruct (decide (zr = z)) as [->|Hne].
      * rewrite lookup_insert_eq in Hzr. injection Hzr as <-. simpl.
        split; [reflexivity | intros _; exact (proj1 (aux_set_facts _ self self))].
      * rewrite lookup_insert_ne in Hzr by congruence.
        destruct (decide (zr = p)) as [->|Hne'].
        -- rewrite lookup_insert_eq in Hzr. injection Hzr as <-. simpl.
           split; [|congruence]. intros Hmem.
           exfalso. exact (proj1 (proj2 (aux_set_facts (aux zp) self self)) Hmem).
        -- rewrite lookup_insert_ne in Hzr by congruence.
           rewrite (Hown zr zone Hzr). split; congruence.
    + intros r. destruct (decide (r = z)) as [->|Hne].
      * rewrite lookup_insert_eq, Hz. simpl.
        destruct (decide (z = p)) as [->|Hzp]; simpl; [congruence | reflexivity].
      * rewrite lookup_insert_ne by congruence.
        destruct (decide (r = p)) as [->|Hne'].
        -- rewrite lookup_insert_eq, Hp. reflexivity.
        -- by rewrite lookup_insert_ne by congruence.
    + intros other Hother. split; [by rewrite lookup_insert_ne by congruence|].
      intros r. destruct (decide (r = z)) as [->|Hne].
      * rewrite lookup_insert_eq, Hz. simpl. f_equal.
        apply bool_decide_ext.
        destruct (decide (z = p)) as [->|Hzp]; simpl.
        -- assert (zp = zz) by congruence. subst zp.
           simpl. exact (proj2 (proj2 (proj2 (proj2 (aux_set_facts (aux zz) self other)) Hother))).
        -- exact (proj1 (proj2 (proj2 (aux_set_facts (aux zz) self other)) Hother)).
      * rewrite lookup_insert_ne by congruence.
        destruct (decide (r = p)) as [->|Hne'].
        -- rewrite lookup_insert_eq, Hp. simpl. f_equal.
           apply bool_decide_ext.
           exact (proj1 (proj2 (proj2 (proj2 (aux_set_facts (aux zp) self other)) Hother))).
        -- by rewrite lookup_insert_ne by congruence.
  - eexists. split; [exact Hset|]. cbn [zones zone_items Area_zones].
    split; [by rewrite lookup_insert_eq|].
    split; [by rewrite lookup_insert_eq|]. split; [|split].
    + exists (AuxiliaryZoneItem.with_parent item z). cbn [zones zone_items].
      split; [by rewrite lookup_insert_eq|]. cbn [AuxiliaryZoneItem.with_parent
        AuxiliaryZoneItem.parent].
      intros zr zone Hzr. destruct (decide (zr = z)) as [->|Hne].
      * rewrite lookup_insert_eq in Hzr. injection Hzr as <-. simpl.
        split; [reflexivity | intros _; exact (proj1 (aux_set_facts _ self self))].
      * rewrite lookup_insert_ne in Hzr by congruence.
        rewrite (Hown zr zone Hzr). split; congruence.
    + intros r. destruct (decide (r = z)) as [->|Hne].
      * rewrite lookup_insert_eq, Hz. reflexivity.
      * by rewrite lookup_insert_ne by congruence.
    + intros other Hother. split; [by rewrite lookup_insert_ne by congruence|].
      intros r. destruct (decide (r = z)) as [->|Hne].
      * rewrite lookup_insert_eq, Hz. simpl. f_equal.
        apply bool_decide_ext.
        exact (proj1 (proj2 (proj2 (aux_set_facts (aux zz) self other)) Hother)).
      * by rewrite lookup_insert_ne by congruence.
Qed.

Lemma Sample_heap_owned (area : option (list ref)) :
  owned_by_parent (Sample.heap area) 20%positive.
Proof.
  exists (Sample.zone_item (Some 10%positive)). split; [reflexivity|].
  intros zr zone Hzr. unfold Sample.heap in Hzr. cbn [zones] in Hzr.
  destruct (decide (zr = 10%positive)) as [->|Hne].
  - rewrite lookup_insert_eq in Hzr. injection Hzr as <-. simpl.
    split; [reflexivity | intros _; by apply elem_of_singleton].
  - rewrite lookup_insert_ne in Hzr by congruence.
    apply lookup_singleton_Some in Hzr as [<- <-]. simpl.
    split; [intros H; inversion H | congruence].
Qed.

Lemma setZoneID_keeps_ownership_witness :
  exists h',
    setZoneID 20%positive 2%Z (Sample.heap (Some [10; 11]%positive)) = (Py.Ok tt, h') /\
    AuxiliaryZoneItem.parent <$> zone_items h' !! 20%positive = Some (Some 11%positive) /\
    owned_by_parent h' 20%positive.
Proof.
  destruct (setZoneID_keeps_ownership 20%positive 2%Z
              (Sample.heap (Some [10; 11]%positive))
              [10%positive] [] 11%positive (Sample.zone 2 100 0 16 16 ∅))
    as (h' & H1 & H2 & _ & H3 & _).
  - apply Sample_heap_owned.
  - reflexivity.
  - intros r Hr. apply list_elem_of_singleton in Hr as ->. eexists. reflexivity.
  - reflexivity.
  - reflexivity.
  - intros r Hr. inversion Hr.
  - intros item p Hitem Hp. injection Hitem as <-. injection Hp as <-.
    eexists. reflexivity.
  - exists h'. repeat split; assumption.
Defined.

(** X24: if the item is not in the aux set of the zone it has as parent,
    [setZoneID] to an existing id raises [KeyError] (from the removal
    from the old aux set) and leaves everything as it was: the parent
    link is not changed and the item is not added to the new zone. *)
Theorem setZoneID_not_in_parent_aux (self : ref) (zid : Z) (h : Heap)
    (pre post : list ref) (z p : ref) (zz zp : Zone)
    (item : AuxiliaryZoneItem.t) :
  Area_zones h = Some (pre ++ z :: post) ->
  (forall r, r ∈ pre -> is_Some (zones h !! r)) ->
  zones h !! z = Some zz -> id zz = zid ->
  (forall r, r ∈ post -> exists z', zones h !! r = Some z' /\ id z' <> zid) ->
  zone_items h !! self = Some item ->
  AuxiliaryZoneItem.parent item = Some p ->
  zones h !! p = Some zp ->
  self ∉ aux zp ->
  setZoneID self zid h = (Py.Raise Py.KeyError, h).
Proof.
  intros Harea Hpre Hz Hid Hpost Hitem Hparent Hp Hnotin.
  pose proof (find_zone_last_match h pre post z zz zid None Hpre Hz Hid Hpost)
    as Hfind.
  pose proof (setZoneID_found self zid h _ z zz item Harea Hfind Hz Hitem) as Hset.
  rewrite Hparent, Hp in Hset.
  rewrite bool_decide_eq_false_2 in Hset by assumption. exact Hset.
Qed.

Lemma setZoneID_not_in_parent_aux_witness :
  let h := mkHeap (zones (Sample.heap None))
             {[ 21%positive := Sample.zone_item (Some 11%positive) ]}
             (Some [10; 11]%positive) in
  setZoneID 21%positive 1%Z h = (Py.Raise Py.KeyError, h).
Proof.
  intros h.
  refine (setZoneID_not_in_parent_aux 21%positive 1%Z h [] [11%positive]
            10%positive 11%positive
            (Sample.zone 1 0 0 16 16 {[ 20%positive ]})
            (Sample.zone 2 100 0 16 16 ∅)
            (Sample.zone_item (Some 11%positive)) _ _ _ _ _ _ _ _ _).
  - reflexivity.
  - intros r Hr. inversion Hr.
  - reflexivity.
  - reflexivity.
  - intros r Hr. apply list_elem_of_singleton in Hr as ->.
    eexists. split; [reflexivity | discriminate].
  - reflexivity.
  - reflexivity.
  - reflexivity.
  - simpl. intros H. inversion H.
Defined.

(** X25: the constructor of a zone item registers it with its parent: for
    a new item, one that no zone lists yet, built with a live zone as
    parent, the item is afterwards in the aux set of that zone and of no
    other zone, with the default 24 by 24 bounding rectangle; no other
    item and no zone id is touched. *)
Theorem AuxiliaryZoneItem_init_owned (self p : ref) (imageObj : option Qt.Image)
    (h : Heap) (zp : Zone) :
  zones h !! p = Some zp ->
  (forall zr zone, zones h !! zr = Some zone -> self ∉ aux zone) ->
  exists h',
    AuxiliaryZoneItem_init self (Some p) imageObj h = Py.Ok h' /\
    owned_by_parent h' self /\
    AuxiliaryZoneItem.BoundingRect <$> zone_items h' !! self =
      Some (Qt.mkQRectF 0 0 24 24) /\
    (forall other, other <> self -> zone_items h' !! other = zone_items h !! other) /\
    (forall r, id <$> zones h' !! r = id <$> zones h !! r).
Proof.
  intros Hp Hfresh. unfold AuxiliaryZoneItem_init, aux_add.
  cbn [zones zone_items Area_zones]. rewrite Hp.
  eexists. split; [reflexivity|]. cbn [zones zone_items Area_zones].
  split; [|split; [|split]].
  - eexists. cbn [zones zone_items]. split; [apply lookup_insert_eq|]. simpl.
    intros zr zone Hzr. destruct (decide (zr = p)) as [->|Hne].
    + rewrite lookup_insert_eq in Hzr. injection Hzr as <-. simpl.
      split; [reflexivity | intros _; exact (proj1 (aux_set_facts _ self self))].
    + rewrite lookup_insert_ne in Hzr by congruence.
      split; [intros Hin; exfalso; exact (Hfresh zr zone Hzr Hin) | congruence].
  - by rewrite lookup_insert_eq.
  - intros other Hother. by rewrite lookup_insert_ne by congruence.
  - intros r. destruct (decide (r = p)) as [->|Hne].
    + rewrite lookup_insert_eq, Hp. reflexivity.
    + by rewrite lookup_insert_ne by congruence.
Qed.

Lemma AuxiliaryZoneItem_init_owned_witness :
  exists h',
    AuxiliaryZoneItem_init 21%positive (Some 11%positive) None
      (mkHeap {[ 11%positive := Sample.zone 2 100 0 16 16 ∅ ]} ∅ None) = Py.Ok h' /\
    owned_by_parent h' 21%positive.
Proof.
  destruct (AuxiliaryZoneItem_init_owned 21%positive 11%positive None
              (mkHeap {[ 11%positive := Sample.zone 2 100 0 16 16 ∅ ]} ∅ None)
              (Sample.zone 2 100 0 16 16 ∅)) as (h' & H1 & H2 & _).
  - reflexivity.
  - intros zr zone Hzr. cbn [zones] in Hzr.
    apply lookup_singleton_Some in Hzr as [_ <-]. simpl. intros H. inversion H.
  - exists h'. split; assumption.
Defined.

(** X26: [alignToZone] puts the item at the origin of its parent zone and
    gives it the bounding rectangle of that zone, or the default 24 by 24
    rectangle when it has no parent; it changes neither the zones nor the
    parent link, and a second call changes nothing more. *)
Theorem alignToZone_result (self : ref) (h : Heap) (item : AuxiliaryZoneItem.t) :
  zone_items h !! self = Some item ->
  (forall p, AuxiliaryZoneItem.parent item = Some p -> is_Some (zones h !! p)) ->
  exists h' item',
    alignToZone self h = Py.Ok h' /\
    zone_items h' !! self = Some item' /\
    AuxiliaryZoneItem.pos item' = (0, 0) /\
    AuxiliaryZoneItem.BoundingRect item' =
      match AuxiliaryZoneItem.parent item with
      | Some p => default (Qt.mkQRectF 0 0 24 24) (BoundingRect <$> zones h !! p)
      | None => Qt.mkQRectF 0 0 24 24
      end /\
    AuxiliaryZoneItem.parent item' = AuxiliaryZoneItem.parent item /\
    zones h' = zones h /\ Area_zones h' = Area_zones h /\
    alignToZone self h' = Py.Ok h'.
Proof.
  intros Hitem Hlive. unfold alignToZone at 1. rewrite Hitem.
  destruct (AuxiliaryZoneItem.parent item) as [p|] eqn:Hparent.
  - destruct (Hlive p eq_refl) as [zp Hp]. rewrite Hp. simpl.
    do 2 eexists. split; [reflexivity|]. cbn [zones zone_items Area_zones].
    split; [apply lookup_insert_eq|]. repeat split.
    unfold alignToZone. cbn [zones zone_items Area_zones].
    rewrite lookup_insert_eq. simpl. rewrite ?Hparent, Hp. simpl.
    rewrite insert_insert_eq. reflexivity.
  - simpl. do 2 eexists. split; [reflexivity|]. cbn [zones zone_items Area_zones].
    split; [apply lookup_insert_eq|]. repeat split.
    unfold alignToZone. cbn [zones zone_items Area_zones].
    rewrite lookup_insert_eq. simpl. rewrite ?Hparent. simpl.
    rewrite insert_insert_eq. reflexivity.
Qed.

Lemma alignToZone_result_witness :
  exists h' item',
    alignToZone 20%positive (Sample.heap None) = Py.Ok h' /\
    zone_items h' !! 20%positive = Some item' /\
    AuxiliaryZoneItem.pos item' = (0, 0).
Proof.
  destruct (alignToZone_result 20%positive (Sample.heap None)
              (Sample.zone_item (Some 10%positive)))
    as (h' & item' & H1 & H2 & H3 & _).
  - reflexivity.
  - intros p Hp. injection Hp as <-. eexists. reflexivity.
  - exists h', item'. repeat split; assumption.
Defined.

(** ** Loading into the cache *)

(** X27: [loadIfNotInImageCache(name, filename)] for a name not yet in
    the cache, when an override folder holds the file: the entry for
    [name] becomes the [QPixmap] of the file in the override folder added
    last among those holding it; the other entries, the override folders
    and the tile table are untouched.  A later call for the same name
    keeps that entry even if the file has gone or a newer folder has been
    added since. *)
Theorem loadIfNotInImageCache_loads (name filename : string) (g : Globals)
    (pre post : list string) (folder : string) :
  ImageCache g !! name = None ->
  SpritesFolders g = pre ++ folder :: post ->
  os_path.join folder filename ∈ files g ->
  (forall f, f ∈ post -> os_path.join f filename ∉ files g) ->
  let g' := loadIfNotInImageCache name filename g in
  ImageCache g' !! name = Some (Some (Qt.QPixmap (os_path.join folder filename))) /\
  (forall other, other <> name -> ImageCache g' !! other = ImageCache g !! other) /\
  (forall g'' filename',
     ImageCache g'' = ImageCache g' ->
     loadIfNotInImageCache name filename' g'' = g'').
Proof.
  intros Habsent Hfolders Hin Hpost g'. subst g'.
  rewrite loadIfNotInImageCache_absent by assumption.
  destruct (GetImg_found filename false g pre post folder Hfolders Hin Hpost)
    as [-> _].
  split; [apply lookup_insert_eq|]. split.
  - intros other Hne. apply lookup_insert_ne. congruence.
  - intros g'' filename' Hcache. apply loadIfNotInImageCache_present.
    rewrite Hcache, lookup_insert_eq. eauto.
Qed.

Lemma loadIfNotInImageCache_loads_witness :
  let g := mkGlobals None None None ∅ ∅ ∅ ["a"; "b"; "c"] false
             {[ "a/goomba.png"; "b/goomba.png" ]} [] in
  ImageCache (loadIfNotInImageCache "goomba" "goomba.png" g) !! "goomba" =
    Some (Some (Qt.QPixmap "b/goomba.png")).
Proof.
  intros g.
  refine (proj1 (loadIfNotInImageCache_loads "goomba" "goomba.png" g
                   ["a"] ["c"] "b" _ _ _ _)).
  - reflexivity.
  - reflexivity.
  - cbn [files g]. apply elem_of_union_r, elem_of_singleton. reflexivity.
  - intros f Hf. apply list_elem_of_singleton in Hf as ->. cbn [files g].
    intros H. apply elem_of_union in H as [H|H];
      apply elem_of_singleton in H; vm_compute in H; discriminate H.
Defined.

(** ** Resizing a track *)

(** X9: after [setSize(width, height)] a track has the bounding rectangle
    and paints exactly as a track constructed with that size and the same
    direction, whatever its size was before; the call announces the
    geometry change and leaves the position and the direction alone. *)
Theorem track_setSize_as_constructed (track : AuxiliaryTrackObject.t)
    (width height : Q) (option : option Qt.QRectF) :
  let resized := (AuxiliaryTrackObject.setSize track width height).1 in
  let fresh := AuxiliaryTrackObject.init (AuxiliaryTrackObject.parent track)
                 width height (AuxiliaryTrackObject.direction track) in
  AuxiliaryTrackObject.boundingRect resized = AuxiliaryTrackObject.boundingRect fresh /\
  AuxiliaryTrackObject.paint resized option = AuxiliaryTrackObject.paint fresh option /\
  AuxiliaryTrackObject.pos resized = AuxiliaryTrackObject.pos track /\
  AuxiliaryTrackObject.direction resized = AuxiliaryTrackObject.direction track /\
  (AuxiliaryTrackObject.setSize track width height).2 = [prepareGeometryChange] /\
  (forall width' height',
     (AuxiliaryTrackObject.setSize resized width' height').1 =
     (AuxiliaryTrackObject.setSize track width' height').1).
Proof. repeat split. Qed.

(** ** Further sample evaluations *)

Lemma main_resets_witness :
  (main Sample.coloured_globals).1 = Py.Ok tt /\
  Tiles (main Sample.coloured_globals).2 !! 3%Z = Some None /\
  Tiles (main Sample.coloured_globals).2 !! unknown_tile =
    Some (Some (mkTile (Qt.QPixmap "unknown.png"))) /\
  main Sample.globals = (Py.Raise Py.TypeError, Sample.globals).
Proof.
  destruct (main_resets Sample.coloured_globals) as [Hok _].
  destruct Hok as (H0 & _ & _ & _ & H1 & _ & H2 & _); [discriminate|].
  destruct (main_resets Sample.globals) as [_ Hraise].
  split; [exact H0|]. split; [apply H1; lia|].
  split; [rewrite H2; reflexivity | apply Hraise; reflexivity].
Defined.

Lemma GetTile_outcomes_witness :
  GetTile 5 Sample.globals = Py.Raise Py.KeyError.
Proof.
  apply (proj1 (proj2 (GetTile_outcomes Sample.globals 5))).
  left. reflexivity.
Defined.

Lemma flagPresent_iff_witness :
  AuxiliaryImage_FollowsRect.flagPresent 33 Qt.AlignTop = true.
Proof.
  apply (proj1 (flagPresent_iff 33 Qt.AlignTop)). reflexivity.
Defined.
